(** * go-req: an HTTP load generator, verified against its description

    The repository holds three generations of one [main] package:
    - the basic variant ([src/main.go]): rate-limited launch of GET requests;
    - the counting variant ([src/unnamed/part_001]): executors report a
      success or an error to the dispatch loop over two unbuffered channels;
    - the duration-sampling variant ([src/unnamed/part_000]): executors report
      a latency or an error label over two buffered channels, and the loop
      prints averages and percentiles.

    Go values are embedded as follows: [int], [int64] and [time.Duration] are
    [Z] with the 64-bit wrap-around written out, [float64] is the binary64
    instance of the Standard Library's [SpecFloat], [string] is a byte string,
    slices are lists, [map[string]int] is a [gmap string Z].  External
    calls (the HTTP client, the clock, the rate limiter, the scheduler) are
    inputs of the functions that use them. *)

From Stdlib Require Import ZArith Lia Ascii SpecFloat.
From stdpp Require Import base tactics option list strings pretty gmap sorting.

Local Open Scope Z_scope.

(** * Machine integers *)

Module Int64.

Definition min_int : Z := - 2 ^ 63.
Definition max_int : Z := 2 ^ 63 - 1.

(** Two's complement reduction of an unbounded result to [int64]. *)
Definition wrap (x : Z) : Z := (x + 2 ^ 63) mod 2 ^ 64 - 2 ^ 63.

Definition in_range (x : Z) : Prop := min_int <= x <= max_int.

Definition add (x y : Z) : Z := wrap (x + y).
Definition sub (x y : Z) : Z := wrap (x - y).
(** Go's [/] on integers truncates toward zero. *)
Definition div (x y : Z) : Z := wrap (Z.quot x y).
(** Go's [%] takes the sign of the dividend. *)
Definition rem (x y : Z) : Z := Z.rem x y.

End Int64.

(** * Strings *)

Module GoStrings.

Definition colon : ascii := ":"%char.

(** [strings.Split(s, ":")]: the substrings between the separators, one
    more than there are separators (so [Split("", ":")] is [[""]]). *)
Fixpoint Split (s : string) : list string :=
  match s with
  | EmptyString => [EmptyString]
  | String c rest =>
      if Ascii.eqb c colon then EmptyString :: Split rest
      else match Split rest with
           | [] => [String c EmptyString]
           | part :: parts => String c part :: parts
           end
  end.

Fixpoint count_colon (s : string) : nat :=
  match s with
  | EmptyString => 0%nat
  | String c rest =>
      if Ascii.eqb c colon then S (count_colon rest) else count_colon rest
  end.

(** The test [len(headerParts) != 2] of the executors. *)
Definition malformed (header : string) : bool :=
  negb (Nat.eqb (length (Split header)) 2).

End GoStrings.

(** * Request executors

    One call of [doRequest] runs in its own goroutine.  What it does to the
    rest of the program is: values sent on the two channels, lines logged,
    and the way it ends (it returns, it ends the process through [os.Exit],
    or it panics, which also ends the process).  The calls into [net/http]
    and the clock are answered by a [world]. *)

Module Exec.

Import GoStrings.

(** A value put on [successChannel] or on the error channel; [E] is the
    element type of the error channel. *)
Inductive send (E : Type) : Type :=
| SendSuccess (v : Z)
| SendError (e : E).
Arguments SendSuccess {E} v.
Arguments SendError {E} e.

Inductive termination : Type :=
| Returned
| Exited (code : Z)
| Panicked.

Record response : Type := { StatusCode : Z }.

(** Answers of the outside world to one executor. *)
Record world : Type := {
  new_request_fails : bool;        (* [http.NewRequest] returns a non-nil error *)
  do_response : option response;   (* the [*http.Response] of [client.Do]; [None] is nil *)
  do_fails : bool;                 (* [client.Do] returns a non-nil error *)
  dt_new_request : Z;              (* time spent in [http.NewRequest] *)
  dt_header : Z;                   (* time spent on one configured header *)
  dt_do : Z;                       (* time spent in [client.Do] *)
  dt_copy : Z                      (* time spent draining the body *)
}.

(** The goroutine's view: the clock, the values sent so far, the header
    fields set on the request, the lines logged and the number of calls
    of [client.Do] made. *)
Record exec_state (E : Type) : Type := {
  clock : Z;
  sent : list (send E);
  header_sets : list (string * string);
  logged : list string;
  http_calls : nat
}.
Arguments clock {E} _.
Arguments sent {E} _.
Arguments header_sets {E} _.
Arguments logged {E} _.
Arguments http_calls {E} _.
Arguments Build_exec_state {E} _ _ _ _ _.

(** State and early exit: a step either yields a value or ends the
    goroutine, and in both cases leaves a state. *)
Definition M (E A : Type) : Type :=
  exec_state E -> (A + termination) * exec_state E.

Global Instance M_ret {E} : MRet (M E) := fun A a s => (inl a, s).
Global Instance M_bind {E} : MBind (M E) := fun A B k m s =>
  match m s with
  | (inl a, s') => k a s'
  | (inr t, s') => (inr t, s')
  end.

Section Ops.
Context {E : Type}.

Definition stop {A} (t : termination) : M E A := fun s => (inr t, s).
Definition go_return {A} : M E A := stop Returned.
Definition os_Exit {A} (code : Z) : M E A := stop (Exited code).
Definition panic {A} : M E A := stop Panicked.

Definition tick (d : Z) : M E unit := fun s =>
  (inl tt, Build_exec_state (clock s + d) (sent s) (header_sets s) (logged s)
             (http_calls s)).
Definition time_Now : M E Z := fun s => (inl (clock s), s).
Definition time_Since (t : Z) : M E Z := fun s => (inl (clock s - t), s).
Definition chan_send (x : send E) : M E unit := fun s =>
  (inl tt, Build_exec_state (clock s) (sent s ++ [x]) (header_sets s) (logged s)
             (http_calls s)).
Definition log_Print (line : string) : M E unit := fun s =>
  (inl tt, Build_exec_state (clock s) (sent s) (header_sets s) (logged s ++ [line])
             (http_calls s)).

(** [http.NewRequest]: the request pointer, nil when the error is not. *)
Definition http_NewRequest (w : world) : M E (option unit * bool) :=
  tick (dt_new_request w);;
  mret (if new_request_fails w then (None, true) else (Some tt, false)).

(** [req.Header.Set]: dereferences [req]. *)
Definition Header_Set (req : option unit) (name value : string) : M E unit :=
  match req with
  | None => panic
  | Some _ => fun s =>
      (inl tt, Build_exec_state (clock s) (sent s)
                 (header_sets s ++ [(name, value)]) (logged s) (http_calls s))
  end.

(** [client.Do]: dereferences [req]. *)
Definition client_Do (w : world) (req : option unit)
  : M E (option response * bool) :=
  match req with
  | None => panic
  | Some _ =>
      (fun s => (inl tt, Build_exec_state (clock s + dt_do w) (sent s)
                           (header_sets s) (logged s) (S (http_calls s))));;
      mret (do_response w, do_fails w)
  end.

(** [io.Copy(io.Discard, resp.Body)]: dereferences [resp]. *)
Definition drain_body (w : world) (resp : option response) : M E response :=
  match resp with
  | None => panic
  | Some r => tick (dt_copy w);; mret r
  end.

Fixpoint for_range {A} (body : A -> M E unit) (l : list A) : M E unit :=
  match l with
  | [] => mret tt
  | x :: l' => body x;; for_range body l'
  end.

Definition when (b : bool) (m : M E unit) : M E unit :=
  if b then m else mret tt.

Definition init (t0 : Z) : exec_state E := Build_exec_state t0 [] [] [] 0.

(** Run a goroutine body started at clock [t0]. *)
Definition run (m : M E unit) (t0 : Z) : termination * exec_state E :=
  match m (init t0) with
  | (inl _, s) => (Returned, s)
  | (inr t, s) => (t, s)
  end.

End Ops.

Definition nonempty (s : string) : bool := negb (String.eqb s "").

(** ** The duration-sampling variant ([src/unnamed/part_000], [doRequest]) *)
Module Sampling.

Definition header_step (w : world) (req : option unit) (header : string)
  : M string unit :=
  tick (dt_header w);;
  let headerParts := Split header in
  if negb (Nat.eqb (length headerParts) 2) then
    log_Print ("Invalid header: " +:+ header);;
    os_Exit 1
  else
    Header_Set req (headerParts !!! 0%nat) (headerParts !!! 1%nat).

Definition doRequest (w : world) (headers : list string)
    (authentication : string) : M string unit :=
  start ← time_Now;
  '(req, err) ← http_NewRequest w;
  when err (chan_send (SendError "Error creating request");; go_return);;
  for_range (header_step w req) headers;;
  when (nonempty authentication)
    (Header_Set req "Authentication" ("bearer " +:+ authentication));;
  '(resp, err) ← client_Do w req;
  r ← drain_body w resp;
  when err (chan_send (SendError "Error making request");; go_return);;
  elapsed ← time_Since start;
  when (negb (StatusCode r =? 200))
    (log_Print ("Error: Status code " +:+ pretty (StatusCode r));;
     chan_send (SendError (pretty (StatusCode r)));;
     go_return);;
  chan_send (SendSuccess elapsed).

End Sampling.

(** ** The counting variant ([src/unnamed/part_001], [doRequest])

    Logged lines are kept up to the text of the error value. *)
Module Counting.

Definition header_step (w : world) (req : option unit) (header : string)
  : M Z unit :=
  tick (dt_header w);;
  let headerParts := Split header in
  if negb (Nat.eqb (length headerParts) 2) then
    log_Print ("Invalid header: " +:+ header)
  else
    Header_Set req (headerParts !!! 0%nat) (headerParts !!! 1%nat).

Definition doRequest (w : world) (headers : list string)
    (authentication : string) : M Z unit :=
  '(req, err) ← http_NewRequest w;
  when err (log_Print "Error creating request";; chan_send (SendError 1));;
  for_range (header_step w req) headers;;
  when (nonempty authentication)
    (Header_Set req "Authentication" ("bearer " +:+ authentication));;
  '(resp, err) ← client_Do w req;
  r ← drain_body w resp;
  when err (log_Print "Error making request";; chan_send (SendError 1));;
  when (negb (StatusCode r =? 200))
    (log_Print ("Error: Status code " +:+ pretty (StatusCode r));;
     chan_send (SendError 1));;
  chan_send (SendSuccess 1).

End Counting.

(** ** The basic variant ([src/main.go], [doRequest]) *)
Module Basic.

Definition header_step (w : world) (req : option unit) (header : string)
  : M Empty_set unit :=
  tick (dt_header w);;
  let headerParts := Split header in
  if negb (Nat.eqb (length headerParts) 2) then
    log_Print ("Invalid header: " +:+ header)
  else
    Header_Set req (headerParts !!! 0%nat) (headerParts !!! 1%nat).

Definition doRequest (w : world) (headers : list string)
  : M Empty_set unit :=
  '(req, err) ← http_NewRequest w;
  when err (log_Print "Error creating request");;
  for_range (header_step w req) headers;;
  '(resp, err) ← client_Do w req;
  r ← drain_body w resp;
  when err (log_Print "Error making request").

End Basic.

End Exec.

(** * Floating point

    [float64] is IEEE 754 binary64: the Standard Library's executable
    specification at precision 53 and maximal exponent 1024, rounding to
    nearest, ties to even. *)

Module Float64.

Definition prec : Z := 53.
Definition emax : Z := 1024.

Definition mul (x y : spec_float) : spec_float := SFmul prec emax x y.
Definition div (x y : spec_float) : spec_float := SFdiv prec emax x y.
Definition add (x y : spec_float) : spec_float := SFadd prec emax x y.

(** The conversion [float64(n)] of an integer. *)
Definition of_int (n : Z) : spec_float := binary_normalize prec emax n 0 false.

(** [math.Ceil]: the least integral value not below [x]; zeros, infinities
    and NaN are returned unchanged, and a negative argument above -1
    gives the negative zero. *)
Definition Ceil (x : spec_float) : spec_float :=
  match x with
  | S754_finite s m e =>
      if 0 <=? e then x
      else if s then binary_normalize prec emax (- (Z.pos m / 2 ^ (- e))) 0 true
      else binary_normalize prec emax (- (- Z.pos m / 2 ^ (- e))) 0 false
  | _ => x
  end.

(** The conversion [int(x)]: the fraction is discarded.  When the value
    does not fit (or is not a number) the language leaves the result to
    the implementation; amd64 then yields the least [int64]. *)
Definition to_int (x : spec_float) : Z :=
  match x with
  | S754_zero _ => 0
  | S754_finite s m e =>
      let magnitude := if 0 <=? e then Z.pos m * 2 ^ e else Z.pos m / 2 ^ (- e) in
      let z := if s then - magnitude else magnitude in
      if (Int64.min_int <=? z) && (z <=? Int64.max_int) then z else Int64.min_int
  | _ => Int64.min_int
  end.

(** The constants 0.90, 0.95 and 0.99 as the compiler rounds them. *)
Definition c0_90 : spec_float := S754_finite false 8106479329266893 (-53).
Definition c0_95 : spec_float := S754_finite false 8556839292003942 (-53).
Definition c0_99 : spec_float := S754_finite false 8917127262193582 (-53).
Definition c1e9 : spec_float := of_int 1000000000.

End Float64.

(** * Durations ([time.Duration], an [int64] count of nanoseconds) *)

Module Duration.

Definition Millisecond : Z := 1000000.
Definition Second : Z := 1000000000.

(** [lessThanHalf(x, y)] of package [time]: [x+x < y] on unsigned words. *)
Definition lessThanHalf (x y : Z) : bool :=
  ((x + x) mod 2 ^ 64 <? y mod 2 ^ 64).

(** [d.Round(m)]: the nearest multiple of [m], halves away from zero,
    saturating. *)
Definition Round (d m : Z) : Z :=
  if m <=? 0 then d
  else
    let r := Int64.rem d m in
    if d <? 0 then
      let r := - r in
      if lessThanHalf r m then Int64.add d r
      else
        let d1 := Int64.add (Int64.sub d m) r in
        if d1 <? d then d1 else Int64.min_int
    else
      if lessThanHalf r m then Int64.sub d r
      else
        let d1 := Int64.sub (Int64.add d m) r in
        if d <? d1 then d1 else Int64.max_int.

(** [d.Truncate(m)]: rounding toward zero to a multiple of [m]. *)
Definition Truncate (d m : Z) : Z :=
  if m <=? 0 then d else d - Int64.rem d m.

(** [d.Seconds()]. *)
Definition Seconds (d : Z) : spec_float :=
  let sec := Z.quot d Second in
  let nsec := Int64.rem d Second in
  Float64.add (Float64.of_int sec)
              (Float64.div (Float64.of_int nsec) Float64.c1e9).

End Duration.

(** * Statistics and the report ([src/unnamed/part_000]) *)

Module Metrics.

(** Indexing a slice; [None] is the out-of-range panic. *)
Definition index {A} (l : list A) (i : Z) : option A :=
  if i <? 0 then None else l !! Z.to_nat i.

(** [percentile(durations, p)]. *)
Definition percentile (durations : list Z) (p : spec_float) : option Z :=
  let len := Z.of_nat (length durations) in
  if len =? 0 then Some 0
  else
    let idx :=
      Int64.sub (Float64.to_int (Float64.Ceil (Float64.mul p (Float64.of_int len)))) 1 in
    let idx := if idx <? 0 then 0 else idx in
    let idx := if idx >=? len then len - 1 else idx in
    index durations idx.

(** The loop [for _, d := range successDurations { avg += d }]. *)
Definition total (durations : list Z) : Z := foldl Int64.add 0 durations.

(** The average of [printMetrics], before it is rounded for display. *)
Definition average (durations : list Z) : Z :=
  let len := Z.of_nat (length durations) in
  if 0 <? len then Int64.div (total durations) len else 0.

(** [errorMap[err]++] for every recorded error. *)
Definition tally (errors : list string) : gmap string Z :=
  foldl (fun m err => <[err := Int64.add (default 0 (m !! err)) 1]> m) ∅ errors.

(** The order in which a [range] over a map visits the keys is not
    specified by the language: any enumeration of the keys can occur, and
    it may differ from one loop to the next. *)
Definition range_order (m : gmap string Z) (order : list string) : Prop :=
  order ≡ₚ (map_to_list m).*1.

Definition newline : string := String (ascii_of_nat 10) EmptyString.

Definition error_line (m : gmap string Z) (k : string) : string :=
  "Error " +:+ k +:+ ": " +:+ pretty (default 0 (m !! k)) +:+ newline.

(** [formattedErrors], for the visiting order [order]. *)
Definition formatErrors (errors : list string) (order : list string) : string :=
  if (0 <? length errors)%nat then
    let errorMap := tally errors in
    foldl (fun acc k => acc +:+ error_line errorMap k) "" order
  else "".

(** What one call of [printMetrics] writes: the error breakdown, the
    entries of the [metrics] map (written in the order of their sorted
    keys), and the latency line when [printTimes] is set. *)
Record report : Type := {
  rep_errors : string;
  rep_avg_duration : Z;
  rep_duration : option Z;
  rep_elapsed : Z;
  rep_error_count : Z;
  rep_requests : Z;
  rep_rps : spec_float;
  rep_success_count : Z;
  rep_latency : option (Z * Z * Z)    (* p99, p95, p90 *)
}.

(** [printMetrics].  [slices.Sort] sorts the caller's slice in place, so
    the sorted samples are returned with the report; [None] is a panic. *)
Definition printMetrics (requests successCount errorCount : Z)
    (successDurations : list Z) (errors : list string)
    (duration elapsed : Z) (printTimes : bool) (order : list string)
    : option (report * list Z) :=
  let currentRps := Float64.div (Float64.of_int requests) (Duration.Seconds elapsed) in
  let formattedErrors := formatErrors errors order in
  let successDurations := merge_sort Z.le successDurations in
  p99 ← percentile successDurations Float64.c0_99;
  p95 ← percentile successDurations Float64.c0_95;
  p90 ← percentile successDurations Float64.c0_90;
  let avg := average successDurations in
  Some ({| rep_errors := formattedErrors;
           rep_avg_duration := Duration.Round avg Duration.Millisecond;
           rep_duration := if 0 <? duration then Some duration else None;
           rep_elapsed := Duration.Truncate elapsed Duration.Second;
           rep_error_count := errorCount;
           rep_requests := requests;
           rep_rps := currentRps;
           rep_success_count := successCount;
           rep_latency :=
             if printTimes then
               Some (Duration.Round p99 Duration.Millisecond,
                     Duration.Round p95 Duration.Millisecond,
                     Duration.Round p90 Duration.Millisecond)
             else None |},
        successDurations).

End Metrics.

(** * The dispatch loop of the duration-sampling variant
      ([src/unnamed/part_000], [main]) *)

Module Dispatch.

Import Exec Metrics.

Record config : Type := {
  address : string;
  headers : list string;
  authentication : string;
  duration : Z
}.

(** The variables of [main] that the loop reads and writes. *)
Record loop_state : Type := {
  started : Z;
  lastPrint : Z;
  requests : Z;
  successCount : Z;
  successDurations : list Z;
  errorCount : Z;
  errors : list string
}.

Definition initial (now : Z) : loop_state :=
  {| started := now; lastPrint := now; requests := 0; successCount := 0;
     successDurations := []; errorCount := 0; errors := [] |}.

(** What an iteration does to the outside. *)
Inductive effect : Type :=
| Launch                 (* [go doRequest(...)] *)
| Render (r : report)    (* a call of [printMetrics] *)
| Exit (code : Z)        (* [os.Exit] *)
| Panic.

(** The clock as read at the four places of the [default] branch. *)
Record readings : Type := {
  at_elapsed : Z;    (* [elapsed := time.Since(started)] *)
  at_check : Z;      (* [time.Since(lastPrint) <= 1*time.Second] *)
  at_reset : Z;      (* [lastPrint = time.Now()] *)
  at_final : Z       (* [time.Since(started) > *duration] *)
}.

(** Everything the [default] branch asks of the outside. *)
Record default_input : Type := {
  allow : bool;                  (* [limiter.Allow()] *)
  clk : readings;
  order_periodic : list string;  (* map order in the periodic render *)
  order_final : list string      (* map order in the final render *)
}.

Definition case_success (d : Z) (st : loop_state) : loop_state :=
  {| started := started st; lastPrint := lastPrint st; requests := requests st;
     successCount := Int64.add (successCount st) 1;
     successDurations := successDurations st ++ [d];
     errorCount := errorCount st; errors := errors st |}.

Definition case_error (errMsg : string) (st : loop_state) : loop_state :=
  {| started := started st; lastPrint := lastPrint st; requests := requests st;
     successCount := successCount st;
     successDurations := successDurations st;
     errorCount := Int64.add (errorCount st) 1; errors := errors st ++ [errMsg] |}.

(** The periodic render of lines 72 to 75: the effects, and the sample
    slice and render timer afterwards. *)
Definition periodic (cfg : config) (i : default_input) (requests' : Z)
    (st : loop_state) : option (list effect * list Z * Z) :=
  let elapsed := at_elapsed (clk i) - started st in
  if at_check (clk i) - lastPrint st <=? 1 * Duration.Second then
    '(r, sorted) ← printMetrics requests' (successCount st) (errorCount st)
                     (successDurations st) (errors st) (duration cfg) elapsed
                     false (order_periodic i);
    Some ([Render r], sorted, at_reset (clk i))
  else Some ([], successDurations st, lastPrint st).

(** The [default] branch; the state is [None] once the process has ended. *)
Definition case_default (cfg : config) (i : default_input) (st : loop_state)
    : list effect * option loop_state :=
  let launch := if allow i then [Launch] else [] in
  let requests' := if allow i then Int64.add (requests st) 1 else requests st in
  let elapsed := at_elapsed (clk i) - started st in
  match periodic cfg i requests' st with
  | None => (launch ++ [Panic], None)
  | Some (rendered, samples, lastPrint') =>
      if (0 <? duration cfg) && (duration cfg <? at_final (clk i) - started st) then
        match printMetrics requests' (successCount st) (errorCount st) samples
                (errors st) (duration cfg) elapsed true (order_final i) with
        | Some (r, _) => (launch ++ rendered ++ [Render r; Exit 0], None)
        | None => (launch ++ rendered ++ [Panic], None)
        end
      else
        (launch ++ rendered,
         Some {| started := started st; lastPrint := lastPrint';
                 requests := requests'; successCount := successCount st;
                 successDurations := samples; errorCount := errorCount st;
                 errors := errors st |})
  end.

(** ** The loop together with its executors and channels *)

(** A launched executor: the sends it has still to make, and its end. *)
Record executor (E : Type) : Type := {
  to_send : list (send E);
  ending : termination
}.
Arguments to_send {E} _.
Arguments ending {E} _.
Arguments Build_executor {E} _ _.

Definition launched {E} (body : M E unit) (t0 : Z) : executor E :=
  let '(t, s) := run body t0 in Build_executor (sent s) t.

Record system : Type := {
  loop : loop_state;
  successChannel : list Z;
  errorsChannel : list string;
  executors : list (executor string)
}.

Definition capacity : nat := 100.

Inductive label : Type :=
| Receive_success                    (* [case duration := <-successChannel] *)
| Receive_error                      (* [case errMsg := <-errorsChannel] *)
| Default (i : default_input) (w : world) (t0 : Z)
                                     (* [default], with the world and start
                                        time of the executor it may launch *)
| Executor_sends (n : nat)           (* executor [n] completes its next send *)
| Executor_ends (n : nat).           (* executor [n] returns, exits or panics *)

(** One scheduling step.  [None]: the step cannot happen in this state.
    Otherwise the effects, and the next state unless the process ended. *)
Definition step (cfg : config) (l : label) (sys : system)
    : option (list effect * option system) :=
  match l with
  | Receive_success =>
      match successChannel sys with
      | d :: rest =>
          Some ([], Some {| loop := case_success d (loop sys);
                            successChannel := rest;
                            errorsChannel := errorsChannel sys;
                            executors := executors sys |})
      | [] => None
      end
  | Receive_error =>
      match errorsChannel sys with
      | errMsg :: rest =>
          Some ([], Some {| loop := case_error errMsg (loop sys);
                            successChannel := successChannel sys;
                            errorsChannel := rest;
                            executors := executors sys |})
      | [] => None
      end
  | Default i w t0 =>
      match successChannel sys, errorsChannel sys with
      | [], [] =>
          let new :=
            if allow i then
              [launched (Sampling.doRequest w (headers cfg) (authentication cfg)) t0]
            else [] in
          match case_default cfg i (loop sys) with
          | (fx, Some st) =>
              Some (fx, Some {| loop := st; successChannel := [];
                                errorsChannel := [];
                                executors := executors sys ++ new |})
          | (fx, None) => Some (fx, None)
          end
      | _, _ => None
      end
  | Executor_sends n =>
      match executors sys !! n with
      | Some (Build_executor (SendSuccess d :: rest) t) =>
          if (length (successChannel sys) <? capacity)%nat then
            Some ([], Some {| loop := loop sys;
                              successChannel := successChannel sys ++ [d];
                              errorsChannel := errorsChannel sys;
                              executors := <[n := Build_executor rest t]> (executors sys) |})
          else None
      | Some (Build_executor (SendError msg :: rest) t) =>
          if (length (errorsChannel sys) <? capacity)%nat then
            Some ([], Some {| loop := loop sys;
                              successChannel := successChannel sys;
                              errorsChannel := errorsChannel sys ++ [msg];
                              executors := <[n := Build_executor rest t]> (executors sys) |})
          else None
      | _ => None
      end
  | Executor_ends n =>
      match executors sys !! n with
      | Some (Build_executor [] Returned) =>
          Some ([], Some {| loop := loop sys;
                            successChannel := successChannel sys;
                            errorsChannel := errorsChannel sys;
                            executors := delete n (executors sys) |})
      | Some (Build_executor [] (Exited code)) => Some ([Exit code], None)
      | Some (Build_executor [] Panicked) => Some ([Panic], None)
      | _ => None
      end
  end.

(** A schedule from a state: the effects in order, and the state reached
    unless the process ended. *)
Fixpoint steps (cfg : config) (schedule : list label) (sys : system)
    : option (list effect * option system) :=
  match schedule with
  | [] => Some ([], Some sys)
  | l :: schedule' =>
      match step cfg l sys with
      | Some (fx, Some sys') =>
          '(fx', final) ← steps cfg schedule' sys';
          Some (fx ++ fx', final)
      | Some (fx, None) =>
          match schedule' with [] => Some (fx, None) | _ => None end
      | None => None
      end
  end.

Definition boot (now : Z) : system :=
  {| loop := initial now; successChannel := []; errorsChannel := [];
     executors := [] |}.

(** The outcomes the loop has taken in along a schedule. *)
Definition is_receive (l : label) : bool :=
  match l with
  | Receive_success | Receive_error => true
  | _ => false
  end.

Fixpoint ingested (schedule : list label) : Z :=
  match schedule with
  | [] => 0
  | l :: schedule' => (if is_receive l then 1 else 0) + ingested schedule'
  end.

End Dispatch.

(** * The dispatch loop of the counting variant
      ([src/unnamed/part_001], [main]) *)

Module DispatchCounting.

Import Exec.
Import Dispatch (executor, Build_executor, to_send, ending, launched).

Record loop_state : Type := {
  started : Z;
  lastPrint : Z;
  requests : Z;
  successCount : Z;
  errorCount : Z
}.

Definition initial (now : Z) : loop_state :=
  {| started := now; lastPrint := now; requests := 0; successCount := 0;
     errorCount := 0 |}.

(** The counters of one printed line. *)
Record line : Type := {
  line_requests : Z;
  line_elapsed : Z;
  line_success : Z;
  line_error : Z
}.

Inductive effect : Type :=
| Launch
| Print (l : line)
| Exit (code : Z)
| Panic.

Definition case_success (st : loop_state) : loop_state :=
  {| started := started st; lastPrint := lastPrint st; requests := requests st;
     successCount := Int64.add (successCount st) 1; errorCount := errorCount st |}.

Definition case_error (st : loop_state) : loop_state :=
  {| started := started st; lastPrint := lastPrint st; requests := requests st;
     successCount := successCount st; errorCount := Int64.add (errorCount st) 1 |}.

(** The [default] branch, with the clock as read for [elapsed] and for
    the test of [lastPrint]. *)
Definition case_default (allow : bool) (at_elapsed at_check : Z)
    (st : loop_state) : list effect * loop_state :=
  let launch := if allow then [Launch] else [] in
  let requests' := if allow then Int64.add (requests st) 1 else requests st in
  let elapsed := at_elapsed - started st in
  let printed :=
    if 1 * Duration.Second <? at_check - lastPrint st then
      [Print {| line_requests := requests'; line_elapsed := elapsed;
                line_success := successCount st; line_error := errorCount st |}]
    else [] in
  (launch ++ printed,
   {| started := started st; lastPrint := lastPrint st; requests := requests';
      successCount := successCount st; errorCount := errorCount st |}).

(** Both channels are unbuffered: a send completes when the loop takes
    the value from the sending executor.  An executor with a send to make
    may not have reached it yet, so the [default] branch can always be
    taken. *)
Record system : Type := {
  loop : loop_state;
  executors : list (executor Z)
}.

Record config : Type := {
  headers : list string;
  authentication : string
}.

Inductive label : Type :=
| Receive_from (n : nat)
| Default (allow : bool) (at_elapsed at_check : Z) (w : world) (t0 : Z)
| Executor_ends (n : nat).

Definition step (cfg : config) (l : label) (sys : system)
    : option (list effect * option system) :=
  match l with
  | Receive_from n =>
      match executors sys !! n with
      | Some (Build_executor (SendSuccess _ :: rest) t) =>
          Some ([], Some {| loop := case_success (loop sys);
                            executors := <[n := Build_executor rest t]> (executors sys) |})
      | Some (Build_executor (SendError _ :: rest) t) =>
          Some ([], Some {| loop := case_error (loop sys);
                            executors := <[n := Build_executor rest t]> (executors sys) |})
      | _ => None
      end
  | Default allow at_elapsed at_check w t0 =>
      let new :=
        if allow then
          [launched (Counting.doRequest w (headers cfg) (authentication cfg)) t0]
        else [] in
      let '(fx, st) := case_default allow at_elapsed at_check (loop sys) in
      Some (fx, Some {| loop := st; executors := executors sys ++ new |})
  | Executor_ends n =>
      match executors sys !! n with
      | Some (Build_executor [] Returned) =>
          Some ([], Some {| loop := loop sys; executors := delete n (executors sys) |})
      | Some (Build_executor [] (Exited code)) => Some ([Exit code], None)
      | Some (Build_executor [] Panicked) => Some ([Panic], None)
      | _ => None
      end
  end.

Fixpoint steps (cfg : config) (schedule : list label) (sys : system)
    : option (list effect * option system) :=
  match schedule with
  | [] => Some ([], Some sys)
  | l :: schedule' =>
      match step cfg l sys with
      | Some (fx, Some sys') =>
          '(fx', final) ← steps cfg schedule' sys';
          Some (fx ++ fx', final)
      | Some (fx, None) =>
          match schedule' with [] => Some (fx, None) | _ => None end
      | None => None
      end
  end.

Definition boot (now : Z) : system :=
  {| loop := initial now; executors := [] |}.

End DispatchCounting.

(** * The dispatch loop of the basic variant ([src/main.go], [main]) *)

Module DispatchBasic.

Record loop_state : Type := {
  started : Z;
  lastPrint : Z;
  requests : Z
}.

Inductive effect : Type :=
| Launch
| Print (requests elapsed : Z).

(** One iteration of the loop. *)
Definition iteration (allow : bool) (at_elapsed at_check : Z)
    (st : loop_state) : list effect * loop_state :=
  let launch := if allow then [Launch] else [] in
  let requests' := if allow then Int64.add (requests st) 1 else requests st in
  let elapsed := at_elapsed - started st in
  let printed :=
    if 1 * Duration.Second <? at_check - lastPrint st then
      [Print requests' elapsed]
    else [] in
  (launch ++ printed,
   {| started := started st; lastPrint := lastPrint st; requests := requests' |}).

End DispatchBasic.

(** * Reference notions

    What the properties below compare the program with, and the
    configurations they are tried on. *)

Module Reference.

(** The exact sum of a sample list. *)
Definition sum (durations : list Z) : Z := foldr Z.add 0 durations.

(** The ceiling of [x / y]. *)
Definition ceil_div (x y : Z) : Z := - (- x / y).

(** The nearest-rank index for the fraction [a / b] of [n] samples:
    [ceil(a * n / b) - 1], kept inside [0, n - 1]. *)
Definition nearest_rank (a b n : Z) : Z :=
  Z.max 0 (Z.min (n - 1) (ceil_div (a * n) b - 1)).

(** The nearest-rank value for the fraction [a / b] of a sample set: the
    samples sorted ascending, the element at the nearest-rank index; the
    zero duration when there are no samples. *)
Definition nearest_rank_value (a b : Z) (samples : list Z) : Z :=
  default 0 (merge_sort Z.le samples
               !! Z.to_nat (nearest_rank a b (Z.of_nat (length samples)))).

(** The three fractions of the report, each with its [float64] constant. *)
Inductive quantile : spec_float -> Z -> Z -> Prop :=
| quantile_90 : quantile Float64.c0_90 9 10
| quantile_95 : quantile Float64.c0_95 19 20
| quantile_99 : quantile Float64.c0_99 99 100.

End Reference.

Module Accounting.

Import Exec Dispatch.

(** The sends that launched executors have still to make. *)
Definition pending (l : list (executor string)) : nat :=
  sum_list_with (fun e => length (to_send e)) l.

(** Outcomes on their way to the loop. *)
Definition outstanding (sys : system) : Z :=
  Z.of_nat (length (successChannel sys))
  + Z.of_nat (length (errorsChannel sys))
  + Z.of_nat (pending (executors sys)).

(** After [k] steps of which [taken] took in an outcome. *)
Record counts_ok (k taken : Z) (sys : system) : Prop := {
  ok_success : 0 <= successCount (loop sys);
  ok_error : 0 <= errorCount (loop sys);
  ok_steps : requests (loop sys) <= k;
  ok_taken : successCount (loop sys) + errorCount (loop sys) = taken;
  ok_issued : taken + outstanding sys <= requests (loop sys)
}.

(** Every executor in flight that will exit does so with status 1, over a
    malformed header. *)
Definition exits_explained (cfg : config) (sys : system) : Prop :=
  Forall (fun e => forall code, ending e = Exited code ->
                     code = 1
                     /\ Exists (fun h => GoStrings.malformed h = true) (headers cfg))
         (executors sys).

End Accounting.

Module Scenarios.

Import Dispatch.

(** A run of two seconds against some address. *)
Definition two_seconds : config :=
  {| address := "http://localhost:8080/"; headers := []; authentication := "";
     duration := 2 * Duration.Second |}.

Definition unbounded : config :=
  {| address := "http://localhost:8080/"; headers := []; authentication := "";
     duration := 0 |}.

(** The clock read at one instant [t] throughout an iteration. *)
Definition instant (allowed : bool) (t : Z) : default_input :=
  {| allow := allowed;
     clk := {| at_elapsed := t; at_check := t; at_reset := t; at_final := t |};
     order_periodic := []; order_final := [] |}.

(** The loop two seconds into a run: 23 requests issued, twenty of them
    answered with status 200 after 1 ms to 20 ms (taken in as they came),
    one answered with status 500, two still in flight; the last render was
    half a second ago. *)
Definition twenty_samples : loop_state :=
  {| started := 0; lastPrint := 1500000000; requests := 23;
     successCount := 20;
     successDurations :=
       [ 7000000; 19000000;  3000000; 12000000; 20000000;
         1000000; 15000000;  9000000; 18000000;  5000000;
        11000000;  2000000; 16000000; 14000000;  6000000;
        10000000; 17000000;  4000000; 13000000;  8000000];
     errorCount := 1; errors := ["500"] |}.

(** The round of the [default] branch just after those two seconds, in
    which one more request is admitted. *)
Definition closing_round : default_input :=
  {| allow := true;
     clk := {| at_elapsed := 2000000001; at_check := 2000000001;
               at_reset := 2000000001; at_final := 2000000001 |};
     order_periodic := ["500"]; order_final := ["500"] |}.

(** A schedule to try things on: a request is launched and answered with
    status 200 after 120 time units, its latency is delivered and taken
    in, and the loop goes round once more. *)
Definition one_success : list label :=
  [Default (instant true 100) (Exec.Build_world false (Some (Exec.Build_response 200)) false 3 5 100 7) 100;
   Executor_sends 0;
   Executor_ends 0;
   Receive_success;
   Default (instant false 2000000000) (Exec.Build_world false None false 0 0 0 0) 0].

(** Two rounds of the [default] branch, two seconds after the start and
    just after, with nothing admitted. *)
Definition two_late_rounds : list label :=
  [Default (instant false 2000000000) (Exec.Build_world false None false 0 0 0 0) 0;
   Default (instant false 2000000001) (Exec.Build_world false None false 0 0 0 0) 0].

(** The counting variant without headers or token, and a run of it: one
    request answered with status 500, both of its reports taken in, and one
    more round of the loop two seconds after the start. *)
Definition plain_counting : DispatchCounting.config :=
  {| DispatchCounting.headers := []; DispatchCounting.authentication := "" |}.

Definition one_failure_counted : list DispatchCounting.label :=
  [DispatchCounting.Default true 0 0
     (Exec.Build_world false (Some (Exec.Build_response 500)) false 0 0 0 0) 0;
   DispatchCounting.Receive_from 0;
   DispatchCounting.Receive_from 0;
   DispatchCounting.Default false 2000000001 2000000001
     (Exec.Build_world false None false 0 0 0 0) 0].

End Scenarios.

Module Observations.

Import GoStrings Exec Dispatch.

(** The name and value a well-formed header is set with. *)
Definition field (header : string) : string * string :=
  (Split header !!! 0%nat, Split header !!! 1%nat).

(** The configured headers that pass the test, in order. *)
Definition accepted (headers : list string) : list string :=
  List.filter (fun h => negb (malformed h)) headers.

(** The configured headers that fail it, in order. *)
Definition rejected (headers : list string) : list string :=
  List.filter malformed headers.

(** The credential header, present when a token is configured. *)
Definition bearer (authentication : string) : list (string * string) :=
  if nonempty authentication
  then [("Authentication", "bearer " +:+ authentication)]
  else [].

(** How often a label occurs among the recorded errors. *)
Fixpoint occurrences (k : string) (errors : list string) : Z :=
  match errors with
  | [] => 0
  | e :: errors' => (if String.eqb e k then 1 else 0) + occurrences k errors'
  end.

(** The executors started by a sequence of effects. *)
Fixpoint launches (fx : list effect) : Z :=
  match fx with
  | [] => 0
  | Launch :: fx' => 1 + launches fx'
  | _ :: fx' => launches fx'
  end.

Definition is_render (e : effect) : bool :=
  match e with Render _ => true | _ => false end.

(** Every [default] step of a schedule reads the render clock at [t] or
    later. *)
Definition checks_from (t : Z) (schedule : list label) : Prop :=
  Forall (fun l => match l with
                   | Default i _ _ => t <= at_check (clk i)
                   | _ => True
                   end) schedule.

(** The reports the loop of the counting variant has taken in along a
    schedule. *)
Fixpoint received (schedule : list DispatchCounting.label) : Z :=
  match schedule with
  | [] => 0
  | DispatchCounting.Receive_from _ :: schedule' => 1 + received schedule'
  | _ :: schedule' => received schedule'
  end.

End Observations.

(** * Properties *)

(** ** Integers and strings *)

Module Int64Facts.

Import Int64.

Lemma wrap_id x : in_range x -> wrap x = x.
Proof.
  unfold in_range, min_int, max_int, wrap. intros H.
  rewrite Z.mod_small; lia.
Qed.

Lemma wrap_range x : in_range (wrap x).
Proof.
  unfold in_range, min_int, max_int, wrap.
  pose proof (Z.mod_pos_bound (x + 2 ^ 63) (2 ^ 64)). lia.
Qed.

Lemma add_small x y : in_range (x + y) -> add x y = x + y.
Proof. apply wrap_id. Qed.

Lemma sub_small x y : in_range (x - y) -> sub x y = x - y.
Proof. apply wrap_id. Qed.

End Int64Facts.

Module GoStringsFacts.

Import GoStrings.

Lemma Split_length s : length (Split s) = S (count_colon s).
Proof.
  induction s as [|c rest IH]; simpl; [done|].
  destruct (Ascii.eqb c colon); simpl; [by rewrite IH|].
  destruct (Split rest) as [|part parts]; simpl in *; [done|exact IH].
Qed.

(** A header passes the test exactly when it holds one separator. *)
Lemma malformed_count header :
  malformed header = false <-> count_colon header = 1%nat.
Proof.
  unfold malformed. rewrite Split_length, negb_false_iff, Nat.eqb_eq. lia.
Qed.

End GoStringsFacts.

(** ** Executors *)

Module ExecFacts.

Import GoStrings Exec.

Ltac run_step :=
  unfold mbind, M_bind, mret, M_ret, when, go_return, os_Exit, panic, stop,
    tick, time_Now, time_Since, chan_send, log_Print, http_NewRequest,
    Header_Set, client_Do, drain_body; simpl.

Lemma for_range_cons {E A} (body : A -> M E unit) x l s :
  for_range body (x :: l) s =
  match body x s with
  | (inl _, s') => for_range body l s'
  | (inr t, s') => (inr t, s')
  end.
Proof. reflexivity. Qed.

Lemma sampling_header_pass w h (s : exec_state string) :
  malformed h = false ->
  Sampling.header_step w (Some tt) h s =
  (inl tt, Build_exec_state (clock s + dt_header w) (sent s)
             (header_sets s ++ [(Split h !!! 0%nat, Split h !!! 1%nat)])
             (logged s) (http_calls s)).
Proof.
  unfold malformed, Sampling.header_step. intros Hh. run_step.
  by rewrite Hh.
Qed.

Lemma sampling_header_exit w h (s : exec_state string) :
  malformed h = true ->
  Sampling.header_step w (Some tt) h s =
  (inr (Exited 1),
   Build_exec_state (clock s + dt_header w) (sent s) (header_sets s)
     (logged s ++ ["Invalid header: " +:+ h]) (http_calls s)).
Proof.
  unfold malformed, Sampling.header_step. intros Hh. run_step.
  by rewrite Hh.
Qed.

(** The header loop of the duration-sampling variant over well-formed
    headers only advances the clock and sets header fields. *)
Lemma sampling_headers_pass w headers (s : exec_state string) :
  Forall (fun h => malformed h = false) headers ->
  exists s',
    for_range (Sampling.header_step w (Some tt)) headers s = (inl tt, s')
    /\ clock s' = clock s + Z.of_nat (length headers) * dt_header w
    /\ sent s' = sent s /\ logged s' = logged s
    /\ http_calls s' = http_calls s.
Proof.
  intros Hall. revert s.
  induction Hall as [|h hs Hh _ IH]; intros s.
  - exists s. simpl. repeat split; try done. lia.
  - rewrite for_range_cons, sampling_header_pass by done.
    match goal with |- context [for_range _ hs ?s0] =>
      destruct (IH s0) as (s' & Hrun & Hclock & Hsent & Hlog & Hcalls) end.
    exists s'. rewrite Hrun. simpl in *.
    repeat split; try done. lia.
Qed.

(** With a malformed header among them it ends the process with status 1,
    having sent nothing and called nothing. *)
Lemma sampling_headers_exit w headers (s : exec_state string) :
  Exists (fun h => malformed h = true) headers ->
  exists s',
    for_range (Sampling.header_step w (Some tt)) headers s = (inr (Exited 1), s')
    /\ sent s' = sent s /\ http_calls s' = http_calls s.
Proof.
  intros Hex. revert s.
  induction headers as [|h hs IH]; intros s; [by apply Exists_nil in Hex|].
  rewrite for_range_cons.
  destruct (malformed h) eqn:Hh.
  - rewrite sampling_header_exit by done. eexists. split; [reflexivity|]. done.
  - rewrite sampling_header_pass by done.
    assert (Hrest : Exists (fun h => malformed h = true) hs).
    { apply Exists_cons in Hex as [Hbad|]; [congruence|done]. }
    match goal with |- context [for_range _ hs ?s0] =>
      destruct (IH Hrest s0) as (s' & Hrun & Hsent & Hcalls) end.
    exists s'. rewrite Hrun. by simpl in *.
Qed.

(** [doRequest] of the duration-sampling variant, when building the
    request fails. *)
Lemma sampling_creation_fails w headers auth t0 :
  new_request_fails w = true ->
  run (Sampling.doRequest w headers auth) t0 =
  (Returned, Build_exec_state (t0 + dt_new_request w)
               [SendError "Error creating request"] [] [] 0).
Proof.
  intros Hnew. unfold run, Sampling.doRequest, init. run_step.
  by rewrite Hnew.
Qed.

(** ... when a header is malformed: nothing is sent ... *)
Lemma sampling_malformed_silent w headers auth t0 :
  new_request_fails w = false ->
  Exists (fun h => malformed h = true) headers ->
  sent (run (Sampling.doRequest w headers auth) t0).2 = [].
Proof.
  intros Hnew Hbad. unfold run, Sampling.doRequest, init. run_step.
  rewrite Hnew. simpl.
  match goal with |- context [for_range _ headers ?s0] =>
    destruct (sampling_headers_exit w headers s0 Hbad) as (s & Hrun & Hsent & _)
  end.
  by rewrite Hrun.
Qed.

(** ... and when the request is built and the headers pass: what follows
    depends on the answer of [client.Do]. *)
Lemma sampling_performed w headers auth t0 :
  new_request_fails w = false ->
  Forall (fun h => malformed h = false) headers ->
  exists s,
    run (Sampling.doRequest w headers auth) t0 =
      (match do_response w with None => Panicked | Some _ => Returned end, s)
    /\ http_calls s = 1%nat
    /\ sent s =
        match do_response w with
        | None => []
        | Some r =>
            if do_fails w then [SendError "Error making request"]
            else if StatusCode r =? 200 then
              [SendSuccess (dt_new_request w
                            + Z.of_nat (length headers) * dt_header w
                            + dt_do w + dt_copy w)]
            else [SendError (pretty (StatusCode r))]
        end.
Proof.
  intros Hnew Hok. unfold run, Sampling.doRequest, init. run_step.
  rewrite Hnew. simpl.
  match goal with |- context [for_range _ headers ?s0] =>
    destruct (sampling_headers_pass w headers s0 Hok)
      as (s & Hrun & Hclock & Hsent & Hlog & Hcalls)
  end.
  rewrite Hrun. simpl in *.
  destruct (nonempty auth), (do_response w) as [r|], (do_fails w); simpl;
    try destruct (StatusCode r =? 200); simpl;
    eexists; (split; [reflexivity|]); simpl; rewrite ?Hcalls, ?Hsent;
    (split; [done|]); simpl; repeat f_equal; lia.
Qed.

Lemma headers_verdict (headers : list string) :
  Forall (fun h => malformed h = false) headers
  \/ Exists (fun h => malformed h = true) headers.
Proof.
  induction headers as [|h hs [IH|IH]].
  - left. constructor.
  - destruct (malformed h) eqn:Hh.
    + right. by constructor.
    + left. by constructor.
  - right. by constructor 2.
Qed.

(** Every run of the duration-sampling executor falls under one of the
    three cases above, so it sends at most one value. *)
Lemma sampling_sends_at_most_one w headers auth t0 :
  (length (sent (run (Sampling.doRequest w headers auth) t0).2) <= 1)%nat.
Proof.
  destruct (new_request_fails w) eqn:Hnew.
  - rewrite sampling_creation_fails by done. simpl. lia.
  - destruct (headers_verdict headers) as [Hok|Hbad].
    + destruct (sampling_performed w headers auth t0 Hnew Hok)
        as (s & Hrun & _ & Hsent).
      rewrite Hrun. simpl. rewrite Hsent.
      destruct (do_response w) as [r|]; simpl; [|lia].
      destruct (do_fails w); simpl; [lia|].
      destruct (StatusCode r =? 200); simpl; lia.
    + rewrite sampling_malformed_silent by done. simpl. lia.
Qed.

(** C4 (as amended): in the duration-sampling variant the header test is
    made by each executor.  When the request was built and one of the
    configured headers does not split into exactly two parts, the
    executor ends the process with exit status 1; it has then sent no
    outcome and has not called the HTTP client. *)
Theorem malformed_header_ends_process w headers auth t0 :
  new_request_fails w = false ->
  Exists (fun h => malformed h = true) headers ->
  exists s,
    run (Sampling.doRequest w headers auth) t0 = (Exited 1, s)
    /\ sent s = [] /\ http_calls s = 0%nat.
Proof.
  intros Hnew Hbad. unfold run, Sampling.doRequest, init. run_step.
  rewrite Hnew. simpl.
  match goal with |- context [for_range _ headers ?s0] =>
    destruct (sampling_headers_exit w headers s0 Hbad) as (s & Hrun & Hsent & Hcalls)
  end.
  rewrite Hrun. by exists s.
Qed.

(** When [client.Do] answers with a nil response, which is how it reports
    a connection or DNS failure, draining the body dereferences nil: the
    executor panics before it can report the error. *)
Lemma transport_failure_without_response_panics w headers auth t0 :
  new_request_fails w = false ->
  Forall (fun h => malformed h = false) headers ->
  do_response w = None ->
  exists s, run (Sampling.doRequest w headers auth) t0 = (Panicked, s)
            /\ sent s = [].
Proof.
  intros Hnew Hok Hnil.
  destruct (sampling_performed w headers auth t0 Hnew Hok) as (s & Hrun & _ & Hsent).
  rewrite Hnil in *. by exists s.
Qed.

(** C3 (as stated) fails: a request that cannot be built is recorded
    under the label "Error creating request", not "request error". *)
Lemma request_error_label_differs :
  ~ (forall w headers auth t0,
       new_request_fails w = true \/ do_fails w = true ->
       exists s, run (Sampling.doRequest w headers auth) t0 = (Returned, s)
                 /\ sent s = [SendError "request error"]).
Proof.
  intros Hclaim.
  destruct (Hclaim (Build_world true None true 0 0 0 0) [] "" 0) as (s & Hrun & Hsent);
    [by left|].
  vm_compute in Hrun. injection Hrun as <-. simpl in Hsent. discriminate.
Qed.

(** C3 (as amended): a request that cannot be built is recorded as the
    failure "Error creating request", and a transport error that comes
    with a response is recorded as the failure "Error making request";
    in both cases the executor returns, so the process keeps running. *)
Theorem request_failure_recorded w headers auth t0 :
  new_request_fails w = true
  \/ (Forall (fun h => malformed h = false) headers
      /\ is_Some (do_response w) /\ do_fails w = true) ->
  exists s,
    run (Sampling.doRequest w headers auth) t0 = (Returned, s)
    /\ sent s = [SendError (if new_request_fails w
                            then "Error creating request"
                            else "Error making request")].
Proof.
  intros [Hnew|(Hok & [r Hr] & Herr)].
  - rewrite sampling_creation_fails, Hnew by done. eauto.
  - destruct (new_request_fails w) eqn:Hnew.
    + rewrite sampling_creation_fails by done. eauto.
    + destruct (sampling_performed w headers auth t0 Hnew Hok) as (s & Hrun & _ & Hsent).
      rewrite Hr, Herr in *. eauto.
Qed.

Lemma request_failure_recorded_witness :
  exists s,
    run (Sampling.doRequest (Build_world true None true 3 5 100 7) ["A:B"] "") 0
      = (Returned, s)
    /\ sent s = [SendError "Error creating request"].
Proof.
  apply (request_failure_recorded (Build_world true None true 3 5 100 7) ["A:B"] "" 0).
  left. reflexivity.
Defined.

Lemma malformed_header_ends_process_witness :
  exists s,
    run (Sampling.doRequest (Build_world false None true 3 5 100 7)
           ["A:B"; "no separator"] "") 0 = (Exited 1, s)
    /\ sent s = [] /\ http_calls s = 0%nat.
Proof.
  apply (malformed_header_ends_process (Build_world false None true 3 5 100 7)
           ["A:B"; "no separator"] "" 0).
  - reflexivity.
  - apply Exists_cons_tl, Exists_cons_hd. reflexivity.
Defined.

(** C10: in the duration-sampling variant the clock is read on entry,
    before the request is built and before the headers are applied.  So
    whenever an executor reports a success, the latency it reports is the
    time spent building the request, handling every configured header,
    performing the call and draining the body. *)
Theorem success_latency_spans_construction w headers auth t0 v :
  SendSuccess v ∈ sent (run (Sampling.doRequest w headers auth) t0).2 ->
  v = dt_new_request w + Z.of_nat (length headers) * dt_header w
      + dt_do w + dt_copy w.
Proof.
  destruct (new_request_fails w) eqn:Hnew.
  - rewrite sampling_creation_fails by done. simpl.
    intros Hin. apply list_elem_of_singleton in Hin. discriminate.
  - destruct (headers_verdict headers) as [Hok|Hbad].
    + destruct (sampling_performed w headers auth t0 Hnew Hok)
        as (s & Hrun & _ & Hsent).
      rewrite Hrun. simpl. rewrite Hsent.
      destruct (do_response w) as [r|]; [|by intros ?%elem_of_nil].
      destruct (do_fails w);
        [intros Hin%list_elem_of_singleton; discriminate|].
      destruct (StatusCode r =? 200);
        intros Hin%list_elem_of_singleton; congruence.
    + rewrite sampling_malformed_silent by done. by intros ?%elem_of_nil.
Qed.

Lemma success_latency_spans_construction_witness :
  let w := Build_world false (Some (Build_response 200)) false 3 5 100 7 in
  SendSuccess 120 ∈ sent (run (Sampling.doRequest w ["A:B"; "C:D"] "tok") 1000).2
  /\ 120 = dt_new_request w + Z.of_nat (length ["A:B"; "C:D"]) * dt_header w
           + dt_do w + dt_copy w.
Proof.
  intros w.
  assert (Hin : SendSuccess 120
                ∈ sent (run (Sampling.doRequest w ["A:B"; "C:D"] "tok") 1000).2)
    by (vm_compute; apply list_elem_of_here).
  split; [exact Hin|].
  exact (success_latency_spans_construction w ["A:B"; "C:D"] "tok" 1000 120 Hin).
Defined.

End ExecFacts.

(** ** Statistics *)

Module MetricsFacts.

Import Metrics Int64Facts Reference.

Lemma sum_app l1 l2 : sum (l1 ++ l2) = sum l1 + sum l2.
Proof. unfold sum. induction l1 as [|d l1 IH]; simpl; lia. Qed.

Lemma sum_nonneg l : Forall (fun d => 0 <= d) l -> 0 <= sum l.
Proof. unfold sum. induction 1; simpl; lia. Qed.

Lemma sum_Permutation l1 l2 : l1 ≡ₚ l2 -> sum l1 = sum l2.
Proof. unfold sum. induction 1; simpl; lia. Qed.

(** Without overflow the accumulation loop computes the exact sum. *)
Lemma foldl_add_exact l a :
  Forall (fun d => 0 <= d) l -> 0 <= a -> a + sum l <= Int64.max_int ->
  foldl Int64.add a l = a + sum l.
Proof.
  intros Hall. revert a.
  induction Hall as [|d l Hd Hl IH]; intros a Ha Hmax; simpl.
  - unfold sum. simpl. lia.
  - pose proof (sum_nonneg l Hl) as Hs.
    change (sum (d :: l)) with (d + sum l) in *.
    rewrite add_small by (unfold Int64.in_range, Int64.min_int in *; lia).
    rewrite IH by lia. lia.
Qed.

Lemma total_exact l :
  Forall (fun d => 0 <= d) l -> sum l <= Int64.max_int -> total l = sum l.
Proof. intros Hall Hmax. unfold total. rewrite foldl_add_exact; try done; lia. Qed.

(** The index computed by [percentile] is always inside the slice. *)
Lemma percentile_total durations p :
  exists v, percentile durations p = Some v
            /\ (durations <> [] -> v ∈ durations).
Proof.
  unfold percentile.
  destruct (Z.eqb_spec (Z.of_nat (length durations)) 0) as [Hlen|Hlen].
  - exists 0. split; [done|]. destruct durations; [done|simpl in Hlen; lia].
  - set (raw := Int64.sub _ 1). clearbody raw.
    set (idx := if (if raw <? 0 then 0 else raw) >=? _ then _ else _).
    assert (Hidx : 0 <= idx < Z.of_nat (length durations)).
    { subst idx. rewrite Z.geb_leb.
      destruct (Z.ltb_spec raw 0);
        match goal with |- context [Z.leb ?a ?b] => destruct (Z.leb_spec a b) end;
        lia. }
    unfold index. destruct (Z.ltb_spec idx 0); [lia|].
    destruct (lookup_lt_is_Some_2 durations (Z.to_nat idx)) as [v Hv]; [lia|].
    exists v. split; [done|]. intros _. by eapply list_elem_of_lookup_2.
Qed.

Lemma printMetrics_total requests successCount errorCount durations errors
    duration elapsed printTimes order :
  exists r, printMetrics requests successCount errorCount durations errors
              duration elapsed printTimes order
            = Some (r, merge_sort Z.le durations)
    /\ rep_avg_duration r
       = Duration.Round (average (merge_sort Z.le durations)) Duration.Millisecond
    /\ (is_Some (rep_latency r) <-> printTimes = true)
    /\ rep_requests r = requests
    /\ rep_success_count r = successCount
    /\ rep_error_count r = errorCount
    /\ rep_errors r = formatErrors errors order.
Proof.
  unfold printMetrics.
  destruct (percentile_total (merge_sort Z.le durations) Float64.c0_99) as (p99 & -> & _).
  destruct (percentile_total (merge_sort Z.le durations) Float64.c0_95) as (p95 & -> & _).
  destruct (percentile_total (merge_sort Z.le durations) Float64.c0_90) as (p90 & -> & _).
  simpl. eexists. split; [reflexivity|]. simpl.
  repeat split; try done; destruct printTimes; try done.
Qed.

(** C5: with no samples, every percentile is the zero duration and so is
    the average; neither computation can fail, and a report over no
    samples shows a zero average and, when it carries them, zero
    percentiles. *)
Theorem empty_samples_give_zero p :
  percentile [] p = Some 0
  /\ average [] = 0
  /\ forall requests successCount errorCount errors duration elapsed
       printTimes order,
     exists r,
       printMetrics requests successCount errorCount [] errors duration
         elapsed printTimes order = Some (r, [])
       /\ rep_avg_duration r = 0
       /\ rep_latency r = if printTimes then Some (0, 0, 0) else None.
Proof.
  split; [reflexivity|]. split; [reflexivity|].
  intros. eexists. split; [reflexivity|]. split; reflexivity.
Qed.

(** C8 (the code departs from it): the error breakdown is written in the
    order in which the map is visited, and that order is not fixed.  For
    the errors "500" and "timeout", both visiting orders are possible and
    they give different texts. *)
Theorem error_breakdown_follows_map_order :
  range_order (tally ["500"; "timeout"]) ["500"; "timeout"]
  /\ range_order (tally ["500"; "timeout"]) ["timeout"; "500"]
  /\ formatErrors ["500"; "timeout"] ["500"; "timeout"]
     <> formatErrors ["500"; "timeout"] ["timeout"; "500"].
Proof.
  unfold range_order.
  assert (Hkeys : (map_to_list (tally ["500"; "timeout"])).*1 = ["500"; "timeout"])
    by (vm_compute; reflexivity).
  rewrite Hkeys. split; [done|]. split; [apply Permutation_swap|].
  vm_compute. discriminate.
Qed.

(** [Round] to the millisecond, on a duration that is not negative and
    leaves room for the step up: a multiple of the millisecond at most
    half a millisecond away. *)
Lemma Round_millisecond d :
  0 <= d <= Int64.max_int - Duration.Millisecond ->
  Duration.Round d Duration.Millisecond mod Duration.Millisecond = 0
  /\ - Duration.Millisecond
     <= 2 * (Duration.Round d Duration.Millisecond - d)
     <= Duration.Millisecond.
Proof.
  unfold Duration.Round, Duration.Millisecond, Duration.lessThanHalf,
    Int64.rem, Int64.max_int.
  intros Hd. change (1000000 <=? 0) with false. cbv iota.
  destruct (Z.ltb_spec d 0); [lia|].
  rewrite Z.rem_mod_nonneg by lia.
  pose proof (Z.div_mod d 1000000 ltac:(lia)) as Hdm.
  pose proof (Z.mod_pos_bound d 1000000 ltac:(lia)) as Hr.
  set (r := d mod 1000000) in *.
  rewrite (Z.mod_small (r + r)), (Z.mod_small 1000000) by lia.
  destruct (Z.ltb_spec (r + r) 1000000).
  - rewrite sub_small by (unfold Int64.in_range, Int64.min_int, Int64.max_int; lia).
    split; [|lia].
    replace (d - r) with (d / 1000000 * 1000000) by lia. apply Z.mod_mul. lia.
  - rewrite (add_small d) by (unfold Int64.in_range, Int64.min_int, Int64.max_int; lia).
    rewrite sub_small by (unfold Int64.in_range, Int64.min_int, Int64.max_int; lia).
    destruct (Z.ltb_spec d (d + 1000000 - r)); [|lia].
    split; [|lia].
    replace (d + 1000000 - r) with ((d / 1000000 + 1) * 1000000) by lia.
    apply Z.mod_mul. lia.
Qed.

(** C9 (as stated) fails: for the samples 1ns and 2ns the mean is 3/2 but
    the average computed is 1ns, and the report shows 0. *)
Lemma average_is_not_the_mean :
  average [1; 2] * 2 <> sum [1; 2]
  /\ exists r s,
       printMetrics 2 2 0 [1; 2] [] 0 1000000000 false [] = Some (r, s)
       /\ rep_avg_duration r * 2 <> sum [1; 2].
Proof.
  split; [by vm_compute|].
  eexists _, _. split; [vm_compute; reflexivity|]. by vm_compute.
Qed.

Lemma average_exact durations :
  durations <> [] ->
  Forall (fun d => 0 <= d) durations ->
  sum durations <= Int64.max_int ->
  average durations = sum durations / Z.of_nat (length durations).
Proof.
  intros Hne Hall Hmax. unfold average.
  assert (Hn : 0 < Z.of_nat (length durations)) by (destruct durations; [done|simpl; lia]).
  destruct (Z.ltb_spec 0 (Z.of_nat (length durations))); [|lia].
  rewrite total_exact by done.
  pose proof (sum_nonneg _ Hall) as Hs.
  unfold Int64.div. rewrite Z.quot_div_nonneg by lia.
  apply wrap_id. unfold Int64.in_range, Int64.min_int.
  pose proof (Z.div_pos (sum durations) (Z.of_nat (length durations))).
  pose proof (Z.div_le_upper_bound (sum durations) (Z.of_nat (length durations))
                (sum durations)).
  nia.
Qed.

(** C9 (as amended): for non-empty samples that are not negative and
    whose sum fits in 64 bits, the average computed is the arithmetic mean
    cut down to a whole number of nanoseconds, and the report shows that
    value after [Round] to the millisecond. *)
Theorem average_is_truncated_mean durations :
  durations <> [] ->
  Forall (fun d => 0 <= d) durations ->
  sum durations <= Int64.max_int ->
  let n := Z.of_nat (length durations) in
  average durations = sum durations / n
  /\ n * average durations <= sum durations < n * (average durations + 1)
  /\ forall requests successCount errorCount errors duration elapsed
       printTimes order r sorted,
       printMetrics requests successCount errorCount durations errors duration
         elapsed printTimes order = Some (r, sorted) ->
       rep_avg_duration r = Duration.Round (sum durations / n) Duration.Millisecond.
Proof.
  intros Hne Hall Hmax n.
  assert (Hn : 0 < n) by (subst n; destruct durations; [done|simpl; lia]).
  pose proof (average_exact durations Hne Hall Hmax) as Havg. fold n in Havg.
  split; [done|]. split.
  - rewrite Havg.
    pose proof (Z.mul_div_le (sum durations) n Hn).
    pose proof (Z.mul_succ_div_gt (sum durations) n Hn). lia.
  - intros requests successCount errorCount errors duration elapsed
      printTimes order r sorted Hprint.
    destruct (printMetrics_total requests successCount errorCount durations
                errors duration elapsed printTimes order) as (r' & Hr' & Hround & _).
    rewrite Hprint in Hr'. injection Hr' as <- _. rewrite Hround.
    pose proof (merge_sort_Permutation Z.le durations) as Hperm.
    rewrite average_exact.
    + by rewrite (sum_Permutation _ _ Hperm), (Permutation_length Hperm).
    + intros Hnil. rewrite Hnil in Hperm.
      by apply Permutation_nil_l in Hperm.
    + by rewrite Hperm.
    + by rewrite (sum_Permutation _ _ Hperm).
Qed.

Lemma average_is_truncated_mean_witness :
  average [10; 20; 35] = sum [10; 20; 35] / 3
  /\ 3 * average [10; 20; 35] <= sum [10; 20; 35] < 3 * (average [10; 20; 35] + 1).
Proof.
  destruct (average_is_truncated_mean [10; 20; 35]) as (Havg & Hbounds & _).
  - discriminate.
  - repeat constructor; lia.
  - vm_compute. discriminate.
  - split; [exact Havg|exact Hbounds].
Defined.

End MetricsFacts.

(** ** The dispatch loop *)

Module DispatchFacts.

Import Exec Metrics MetricsFacts Dispatch Reference Accounting Scenarios.

(** The periodic render never panics; it renders, without percentiles,
    exactly when at most one second has passed since [lastPrint]. *)
Lemma periodic_cases cfg i n st :
  (at_check (clk i) - lastPrint st <= 1 * Duration.Second
   /\ exists r, periodic cfg i n st =
        Some ([Render r], merge_sort Z.le (successDurations st), at_reset (clk i))
      /\ rep_latency r = None)
  \/ (1 * Duration.Second < at_check (clk i) - lastPrint st
      /\ periodic cfg i n st = Some ([], successDurations st, lastPrint st)).
Proof.
  unfold periodic.
  destruct (Z.leb_spec (at_check (clk i) - lastPrint st) (1 * Duration.Second)).
  - left. split; [done|].
    destruct (printMetrics_total n (successCount st) (errorCount st)
                (successDurations st) (errors st) (duration cfg)
                (at_elapsed (clk i) - started st) false (order_periodic i))
      as (r & -> & _ & Hlat & _).
    exists r. split; [done|].
    destruct (rep_latency r) eqn:Hr; [|done].
    assert (false = true) by (apply Hlat; eauto). done.
  - right. by split.
Qed.

(** An iteration that leaves the process running rendered no percentiles. *)
Lemma running_render_has_no_percentiles cfg i st fx st' r :
  case_default cfg i st = (fx, Some st') ->
  Render r ∈ fx -> rep_latency r = None.
Proof.
  unfold case_default.
  set (n := if allow i then _ else _).
  destruct (periodic_cases cfg i n st) as [(_ & r0 & -> & Hr0)|(_ & ->)];
    destruct (_ && _);
    try destruct (printMetrics _ _ _ _ _ _ _ true _) as [[? ?]|]; try done;
    intros [= <- <-]; destruct (allow i); simpl;
    rewrite ?elem_of_cons, ?elem_of_nil; intros Hin;
    repeat destruct Hin as [Hin|Hin]; try done; congruence.
Qed.

(** C6 (the code departs from it): the test of the render timer is
    inverted.  Two seconds after the last render the duration-sampling
    loop renders nothing and leaves the timer alone; half a second after
    it, the loop renders and resets the timer.  The basic variant tests
    for more than one second, but never resets the timer. *)
Theorem render_test_is_inverted :
  (exists st',
      case_default unbounded (instant false 2000000000) (initial 0) = ([], Some st')
      /\ lastPrint st' = 0)
  /\ (exists r st',
        case_default unbounded (instant false 500000000) (initial 0)
          = ([Render r], Some st')
        /\ lastPrint st' = 500000000)
  /\ (forall allowed at_elapsed at_check st,
        DispatchBasic.lastPrint
          (DispatchBasic.iteration allowed at_elapsed at_check st).2
        = DispatchBasic.lastPrint st).
Proof.
  split; [|split].
  - eexists. split; [vm_compute; reflexivity|reflexivity].
  - eexists _, _. split; [vm_compute; reflexivity|reflexivity].
  - reflexivity.
Qed.

(** C4 (as stated) fails, in each of its parts.  The headers are only
    looked at by a launched executor, so with a malformed header
    configured the loop still issues a request; an executor that cannot
    build its request returns before it looks at them; and the executor of
    the basic variant skips a malformed header and goes on. *)
Lemma malformed_header_not_caught_at_startup :
  ~ (forall cfg schedule fx final,
       Exists (fun h => GoStrings.malformed h = true) (headers cfg) ->
       steps cfg schedule (boot 0) = Some (fx, final) ->
       Launch ∉ fx)
  /\ ~ (forall w hs auth t0,
         Exists (fun h => GoStrings.malformed h = true) hs ->
         (run (Sampling.doRequest w hs auth) t0).1 = Exited 1)
  /\ ~ (forall w hs t0,
         Exists (fun h => GoStrings.malformed h = true) hs ->
         (run (Basic.doRequest w hs) t0).1 = Exited 1).
Proof.
  assert (Hbad : Exists (fun h => GoStrings.malformed h = true) ["no separator"])
    by (apply Exists_cons_hd; reflexivity).
  split; [|split]; intros Hclaim.
  - set (cfg := {| address := "http://localhost:8080/"; headers := ["no separator"];
                   authentication := ""; duration := 0 |}).
    set (w := Build_world false (Some (Build_response 200)) false 0 0 0 0).
    destruct (steps cfg [Default (instant true 2000000000) w 0] (boot 0))
      as [[fx final]|] eqn:Hrun; [|by vm_compute in Hrun].
    apply (Hclaim cfg _ fx final) in Hrun as Hno; [|exact Hbad].
    vm_compute in Hrun. injection Hrun as <- _.
    apply Hno, list_elem_of_here.
  - specialize (Hclaim (Build_world true None true 0 0 0 0) _ "" 0 Hbad).
    vm_compute in Hclaim. discriminate.
  - specialize (Hclaim (Build_world false (Some (Build_response 200)) false 0 0 0 0)
                  _ 0 Hbad).
    vm_compute in Hclaim. discriminate.
Qed.

(** *** Counting in the duration-sampling variant *)

Lemma pending_insert l n e e' :
  l !! n = Some e ->
  (pending (<[n := e']> l) + length (to_send e)
   = pending l + length (to_send e'))%nat.
Proof.
  unfold pending. revert n.
  induction l as [|x l IH]; intros [|n] Hn; simpl in *; try done.
  - injection Hn as ->. lia.
  - specialize (IH n Hn). lia.
Qed.

Lemma pending_delete l n e :
  l !! n = Some e ->
  (pending (delete n l) + length (to_send e) = pending l)%nat.
Proof.
  unfold pending. revert n.
  induction l as [|x l IH]; intros [|n] Hn; simpl in *; try done.
  - injection Hn as ->. lia.
  - specialize (IH n Hn). lia.
Qed.

Lemma pending_app l1 l2 : pending (l1 ++ l2) = (pending l1 + pending l2)%nat.
Proof. apply sum_list_with_app. Qed.

Lemma launched_sends_at_most_one w hs auth t0 :
  (length (to_send (launched (Sampling.doRequest w hs auth) t0)) <= 1)%nat.
Proof.
  pose proof (ExecFacts.sampling_sends_at_most_one w hs auth t0) as Hone.
  unfold launched. by destruct (run _ t0).
Qed.

(** What the [default] branch does to the counters. *)
Lemma case_default_counters cfg i st fx st' :
  case_default cfg i st = (fx, Some st') ->
  requests st' = (if allow i then Int64.add (requests st) 1 else requests st)
  /\ successCount st' = successCount st
  /\ errorCount st' = errorCount st.
Proof.
  unfold case_default.
  destruct (periodic _ _ _ _) as [[[? ?] ?]|]; [|done].
  destruct (_ && _).
  - by destruct (printMetrics _ _ _ _ _ _ _ _ _) as [[? ?]|].
  - by intros [= <- <-].
Qed.

Lemma step_counts cfg l sys fx sys' k taken :
  counts_ok k taken sys ->
  k < Int64.max_int ->
  step cfg l sys = Some (fx, Some sys') ->
  counts_ok (k + 1) (taken + (if is_receive l then 1 else 0)) sys'.
Proof.
  intros [Hs He Hk Ht Hi] Hmax Hstep. unfold outstanding in Hi.
  assert (Hin : forall x, 0 <= x <= k -> Int64.add x 1 = x + 1).
  { intros x Hx. apply Int64Facts.add_small.
    unfold Int64.in_range, Int64.min_int, Int64.max_int in *. lia. }
  destruct l as [| |i w t0|n|n]; simpl in Hstep.
  - destruct (successChannel sys) as [|d rest] eqn:Hchan; [done|].
    injection Hstep as <- <-. simpl in Hi.
    constructor; unfold outstanding; simpl; rewrite ?Hin by lia; lia.
  - destruct (errorsChannel sys) as [|msg rest] eqn:Hchan; [done|].
    injection Hstep as <- <-. simpl in Hi.
    constructor; unfold outstanding; simpl; rewrite ?Hin by lia; lia.
  - destruct (successChannel sys) eqn:Hsc; [|done].
    destruct (errorsChannel sys) eqn:Hec; [|done].
    destruct (case_default cfg i (loop sys)) as [fx' [st|]] eqn:Hdef; [|done].
    injection Hstep as <- <-.
    apply case_default_counters in Hdef as (Hreq & Hsucc & Herr).
    simpl in Hi.
    pose proof (launched_sends_at_most_one w (headers cfg) (authentication cfg) t0).
    constructor; unfold outstanding; simpl;
      rewrite ?Hreq, ?Hsucc, ?Herr, ?pending_app; try lia;
      destruct (allow i); simpl; rewrite ?Hin by lia; lia.
  - destruct (executors sys !! n) as [[[|[d|msg] rest] t]|] eqn:Hn; try done.
    + destruct (_ <? _)%nat; [|done]. injection Hstep as <- <-.
      pose proof (pending_insert _ _ _ (Build_executor rest t) Hn) as Hp.
      simpl in Hp.
      constructor; unfold outstanding; simpl; rewrite ?length_app; simpl; lia.
    + destruct (_ <? _)%nat; [|done]. injection Hstep as <- <-.
      pose proof (pending_insert _ _ _ (Build_executor rest t) Hn) as Hp.
      simpl in Hp.
      constructor; unfold outstanding; simpl; rewrite ?length_app; simpl; lia.
  - destruct (executors sys !! n) as [[[|] [|code|]]|] eqn:Hn; try done.
    injection Hstep as <- <-.
    pose proof (pending_delete _ _ _ Hn) as Hp. simpl in Hp.
    constructor; unfold outstanding; simpl; lia.
Qed.

Lemma steps_counts cfg schedule : forall sys fx sys' k taken,
  counts_ok k taken sys ->
  k + Z.of_nat (length schedule) <= Int64.max_int ->
  steps cfg schedule sys = Some (fx, Some sys') ->
  counts_ok (k + Z.of_nat (length schedule)) (taken + ingested schedule) sys'.
Proof.
  induction schedule as [|l schedule IH]; intros sys fx sys' k taken Hok Hmax Hrun.
  - simpl in *. injection Hrun as <- <-.
    simpl. by rewrite !Z.add_0_r.
  - simpl in Hrun.
    destruct (step cfg l sys) as [[fx1 [sys1|]]|] eqn:Hstep;
      [| by destruct schedule | done].
    destruct (steps cfg schedule sys1) as [[fx2 final]|] eqn:Hrest; [|done].
    injection Hrun as <- ->.
    eapply step_counts in Hstep; [|done|simpl in Hmax; lia].
    eapply IH in Hrest; [|done|simpl in Hmax; lia].
    simpl length. simpl ingested.
    replace (k + Z.of_nat (S (length schedule)))
      with (k + 1 + Z.of_nat (length schedule)) by lia.
    by rewrite Z.add_assoc.
Qed.

(** In the duration-sampling variant every executor reports at most once,
    so along every schedule (of fewer than 2^63 steps, the reach of the
    counters) the outcomes counted are the outcomes taken in, and they
    never exceed the requests issued. *)
Lemma sampling_counts cfg schedule now fx sys :
  Z.of_nat (length schedule) <= Int64.max_int ->
  steps cfg schedule (boot now) = Some (fx, Some sys) ->
  successCount (loop sys) + errorCount (loop sys) = ingested schedule
  /\ successCount (loop sys) + errorCount (loop sys) <= requests (loop sys).
Proof.
  intros Hmax Hrun.
  assert (Hboot : counts_ok 0 0 (boot now)) by (constructor; simpl; try done).
  eapply steps_counts in Hrun; [|exact Hboot|lia].
  destruct Hrun as [Hs He Hk Ht Hi]. unfold outstanding in Hi. simpl in *.
  split; lia.
Qed.

(** C2 (the code departs from it): in the counting variant an executor
    that receives a status other than 200 reports an error and then, for
    want of a [return], a success as well.  After one request answered
    with status 500 and both reports taken in, the loop prints 1 request,
    1 success and 1 error: the outcomes counted exceed the requests
    issued. *)
Theorem counting_variant_counts_a_failure_twice :
  let cfg := {| DispatchCounting.headers := [];
                DispatchCounting.authentication := "" |} in
  let w := Build_world false (Some (Build_response 500)) false 0 0 0 0 in
  run (Counting.doRequest w [] "") 0
    = (Returned, Build_exec_state 0 [SendError 1; SendSuccess 1] []
                   ["Error: Status code 500"] 1)
  /\ exists sys,
       DispatchCounting.steps cfg
         [DispatchCounting.Default true 0 0 w 0;
          DispatchCounting.Receive_from 0;
          DispatchCounting.Receive_from 0;
          DispatchCounting.Default false 2000000001 2000000001 w 0]
         (DispatchCounting.boot 0)
       = Some ([DispatchCounting.Launch;
                DispatchCounting.Print
                  {| DispatchCounting.line_requests := 1;
                     DispatchCounting.line_elapsed := 2000000001;
                     DispatchCounting.line_success := 1;
                     DispatchCounting.line_error := 1 |}],
               Some sys)
       /\ DispatchCounting.requests (DispatchCounting.loop sys) = 1
       /\ DispatchCounting.successCount (DispatchCounting.loop sys)
          + DispatchCounting.errorCount (DispatchCounting.loop sys) = 2.
Proof.
  split; [vm_compute; reflexivity|].
  eexists. split; [vm_compute; reflexivity|]. split; reflexivity.
Qed.

End DispatchFacts.

(** ** Rounding in binary64

    The facts about [SpecFloat] that the percentile index needs: how many
    bits a mantissa has, what the right shift keeps, and how far the
    rounded mantissa can be from the exact one. *)

Module Float64Facts.

Import Float64.

(** The number of binary digits. *)
Lemma digits2_pos_bounds p :
  2 ^ (Z.pos (digits2_pos p) - 1) <= Z.pos p < 2 ^ Z.pos (digits2_pos p).
Proof.
  induction p as [p IH|p IH|]; simpl digits2_pos; [| |simpl; lia].
  - rewrite Pos2Z.inj_succ.
    replace (Z.succ (Z.pos (digits2_pos p)) - 1)
      with (Z.succ (Z.pos (digits2_pos p) - 1)) by lia.
    rewrite !Z.pow_succ_r by lia. lia.
  - rewrite Pos2Z.inj_succ.
    replace (Z.succ (Z.pos (digits2_pos p)) - 1)
      with (Z.succ (Z.pos (digits2_pos p) - 1)) by lia.
    rewrite !Z.pow_succ_r by lia. lia.
Qed.

Lemma digits2_pos_log2 p : Z.pos (digits2_pos p) = Z.log2 (Z.pos p) + 1.
Proof.
  pose proof (digits2_pos_bounds p) as Hb.
  assert (Z.log2 (Z.pos p) = Z.pos (digits2_pos p) - 1); [|lia].
  apply Z.log2_unique; [lia|].
  replace (Z.succ (Z.pos (digits2_pos p) - 1)) with (Z.pos (digits2_pos p)) by lia.
  exact Hb.
Qed.

Lemma digits2_pos_unique p d :
  2 ^ (d - 1) <= Z.pos p < 2 ^ d -> Z.pos (digits2_pos p) = d.
Proof.
  intros Hb. rewrite digits2_pos_log2.
  assert (0 < d).
  { destruct (Z.le_gt_cases d 0) as [Hd|]; [|done].
    assert (2 ^ d <= 2 ^ 0) by (apply Z.pow_le_mono_r; lia). simpl in *. lia. }
  assert (Z.log2 (Z.pos p) = d - 1); [|lia].
  apply Z.log2_unique; [lia|].
  by replace (Z.succ (d - 1)) with d by lia.
Qed.

(** The library's iteration is iteration. *)
Lemma iter_pos_nat {A} (f : A -> A) p x :
  SpecFloat.iter_pos f p x = Nat.iter (Pos.to_nat p) f x.
Proof.
  revert x. induction p as [p IH|p IH|]; intros x; simpl SpecFloat.iter_pos.
  - rewrite !IH, Pos2Nat.inj_xI.
    replace (S (2 * Pos.to_nat p)) with (Pos.to_nat p + (Pos.to_nat p + 1))%nat by lia.
    rewrite !Nat.iter_add. simpl. done.
  - rewrite !IH, Pos2Nat.inj_xO.
    replace (2 * Pos.to_nat p)%nat with (Pos.to_nat p + Pos.to_nat p)%nat by lia.
    by rewrite Nat.iter_add.
  - done.
Qed.

(** One step of the right shift on a mantissa that is not negative. *)
Lemma shr_1_nonneg m r s :
  0 <= m ->
  shr_1 {| shr_m := m; shr_r := r; shr_s := s |}
  = {| shr_m := m / 2; shr_r := Z.odd m; shr_s := r || s |}.
Proof.
  intros Hm. destruct m as [|[p|p|]|p]; try lia; simpl shr_1.
  - done.
  - f_equal. rewrite Pos2Z.inj_xI.
    apply Z.div_unique with (r := 1); lia.
  - f_equal. rewrite Pos2Z.inj_xO.
    apply Z.div_unique with (r := 0); lia.
  - done.
Qed.

(** [k+1] steps: the quotient, the last bit shifted out, and whether any
    bit before it was set. *)
Lemma shr_iter m k :
  0 <= m ->
  Nat.iter (S k) shr_1 {| shr_m := m; shr_r := false; shr_s := false |}
  = {| shr_m := m / 2 ^ Z.of_nat (S k);
       shr_r := Z.odd (m / 2 ^ Z.of_nat k);
       shr_s := negb (m mod 2 ^ Z.of_nat k =? 0) |}.
Proof.
  intros Hm. induction k as [|k IH].
  - unfold Nat.iter. cbn [nat_rect]. rewrite shr_1_nonneg by done.
    change (2 ^ Z.of_nat 1) with 2. change (2 ^ Z.of_nat 0) with 1.
    by rewrite Z.div_1_r, Z.mod_1_r.
  - rewrite Nat.iter_succ, IH, shr_1_nonneg by (apply Z.div_pos; lia).
    assert (Hpow : 2 ^ Z.of_nat (S k) = 2 * 2 ^ Z.of_nat k)
      by (rewrite Nat2Z.inj_succ, Z.pow_succ_r; lia).
    assert (Hpow' : 2 ^ Z.of_nat (S (S k)) = 2 ^ Z.of_nat (S k) * 2)
      by (rewrite (Nat2Z.inj_succ (S k)), Z.pow_succ_r; lia).
    assert (Hk : 0 < 2 ^ Z.of_nat k) by (apply Z.pow_pos_nonneg; lia).
    f_equal.
    + rewrite Hpow', Z.div_div; lia.
    + set (h := 2 ^ Z.of_nat k) in *.
      rewrite Hpow.
      pose proof (Z.div_mod m h ltac:(lia)) as Hdm.
      pose proof (Z.mod_pos_bound m h Hk) as Hmb.
      pose proof (Z.div_mod m (2 * h) ltac:(lia)) as Hdm2.
      pose proof (Z.mod_pos_bound m (2 * h) ltac:(lia)) as Hmb2.
      pose proof (Z.div_mod (m / h) 2 ltac:(lia)) as Hd2.
      pose proof (Zmod_odd (m / h)) as Hodd.
      assert (Hq : m / h / 2 = m / (2 * h)) by (rewrite Z.div_div; [f_equal|..]; lia).
      rewrite Hq in Hd2.
      destruct (Z.odd (m / h));
        destruct (Z.eqb_spec (m mod h) 0) as [H0|H0];
        destruct (Z.eqb_spec (m mod (2 * h)) 0) as [H2|H2];
        simpl; try done; exfalso; nia.
Qed.

(** Shifting right by [p] places and rounding to nearest leaves a
    mantissa within half a unit of the exact quotient. *)
Lemma shr_round m e p :
  0 <= m ->
  exists mrs q1,
    shr {| shr_m := m; shr_r := false; shr_s := false |} e (Z.pos p)
      = (mrs, e + Z.pos p)
    /\ round_nearest_even (shr_m mrs) (loc_of_shr_record mrs) = q1
    /\ 2 * m - 2 ^ Z.pos p <= 2 * (q1 * 2 ^ Z.pos p) <= 2 * m + 2 ^ Z.pos p.
Proof.
  intros Hm. unfold shr. rewrite iter_pos_nat.
  destruct (Pos2Nat.is_succ p) as [k Hk].
  assert (Hp : Z.pos p = Z.of_nat (S k)) by lia.
  rewrite Hk, shr_iter, Hp by done.
  eexists _, _. split; [reflexivity|]. split; [reflexivity|].
  assert (Hpow : 2 ^ Z.of_nat (S k) = 2 * 2 ^ Z.of_nat k)
    by (rewrite Nat2Z.inj_succ, Z.pow_succ_r; lia).
  assert (Hh : 0 < 2 ^ Z.of_nat k) by (apply Z.pow_pos_nonneg; lia).
  rewrite Hpow. set (h := 2 ^ Z.of_nat k) in *.
  pose proof (Z.div_mod m h ltac:(lia)) as Hdm.
  pose proof (Z.mod_pos_bound m h Hh) as Hmb.
  pose proof (Z.div_mod (m / h) 2 ltac:(lia)) as Hd2.
  pose proof (Zmod_odd (m / h)) as Hodd.
  assert (Hq : m / h / 2 = m / (2 * h)) by (rewrite Z.div_div; [f_equal|..]; lia).
  rewrite Hq in Hd2.
  set (q := m / (2 * h)) in *.
  cbn [shr_m loc_of_shr_record].
  destruct (Z.odd (m / h)); destruct (Z.eqb_spec (m mod h) 0) as [H0|H0];
    cbn [negb round_nearest_even]; try destruct (Z.even q); nia.
Qed.

(** A mantissa of exactly 53 bits with an exponent in range is kept. *)
Lemma binary_round_aux_exact s (mz : positive) ez :
  Z.pos (digits2_pos mz) = 53 ->
  -1074 <= ez <= 971 ->
  binary_round_aux prec emax s (Z.pos mz) ez loc_Exact = S754_finite s mz ez.
Proof.
  intros Hd He. unfold binary_round_aux, shr_fexp, fexp, emin, prec, emax.
  cbn [Zdigits2 shr_record_of_loc]. rewrite Hd.
  replace (Z.max (53 + ez - 53) (3 - 1024 - 53) - ez) with 0 by lia.
  cbn [shr shr_m loc_of_shr_record round_nearest_even Zdigits2 shr_record_of_loc].
  rewrite Hd.
  replace (Z.max (53 + ez - 53) (3 - 1024 - 53) - ez) with 0 by lia.
  cbn [shr shr_m].
  destruct (Z.leb_spec ez (1024 - 53)); [done|lia].
Qed.

Lemma iter_xO m k : Z.pos (Pos.iter xO m k) = Z.pos m * 2 ^ Z.pos k.
Proof.
  rewrite Pos2Nat.inj_iter, <- (positive_nat_Z k). unfold Nat.iter.
  induction (Pos.to_nat k) as [|n IH]; cbn [nat_rect].
  - simpl. lia.
  - rewrite Pos2Z.inj_xO, IH, Nat2Z.inj_succ, Z.pow_succ_r; lia.
Qed.

(** Integers below 2^53 convert without rounding: the mantissa is the
    integer moved up to 53 bits. *)
Lemma of_int_exact n :
  0 < n < 2 ^ 53 ->
  exists mz,
    of_int n = S754_finite false mz (Z.log2 n - 52)
    /\ Z.pos mz = n * 2 ^ (52 - Z.log2 n).
Proof.
  intros Hn. destruct n as [|m|m]; try lia.
  assert (Hlog : 0 <= Z.log2 (Z.pos m) < 53).
  { split; [apply Z.log2_nonneg|]. apply Z.log2_lt_pow2; lia. }
  unfold of_int, binary_normalize, binary_round, shl_align, fexp, emin, prec, emax.
  rewrite digits2_pos_log2.
  replace (Z.max (Z.log2 (Z.pos m) + 1 + 0 - 53) (3 - 1024 - 53) - 0)
    with (Z.log2 (Z.pos m) - 52) by lia.
  replace (Z.max (Z.log2 (Z.pos m) + 1 + 0 - 53) (3 - 1024 - 53))
    with (Z.log2 (Z.pos m) - 52) by lia.
  pose proof (Z.log2_spec (Z.pos m) ltac:(lia)) as Hspec.
  destruct (Z.log2 (Z.pos m) - 52) as [|k|k] eqn:Hk; try lia.
  - assert (Hl : Z.log2 (Z.pos m) = 52) by lia.
    exists m. rewrite Hl. split; [|simpl; lia].
    apply binary_round_aux_exact; [|lia].
    rewrite digits2_pos_log2. lia.
  - exists (Pos.iter xO m k).
    assert (Hl : Z.log2 (Z.pos m) = 52 - Z.pos k) by lia.
    split; [|rewrite iter_xO; do 2 f_equal; lia].
    apply binary_round_aux_exact; [|lia].
    apply digits2_pos_unique. rewrite iter_xO.
    rewrite Hl in Hspec.
    replace (Z.succ (52 - Z.pos k)) with (53 - Z.pos k) in Hspec by lia.
    replace (2 ^ (53 - 1)) with (2 ^ (52 - Z.pos k) * 2 ^ Z.pos k)
      by (rewrite <- Z.pow_add_r by lia; f_equal; lia).
    replace (2 ^ 53) with (2 ^ (53 - Z.pos k) * 2 ^ Z.pos k)
      by (rewrite <- Z.pow_add_r by lia; f_equal; lia).
    assert (0 < 2 ^ Z.pos k) by (apply Z.pow_pos_nonneg; lia).
    nia.
Qed.

(** A mantissa of more than 53 bits is shifted down to 53 bits and
    rounded; when the rounding carries into a 54th bit it is shifted once
    more.  The result is [m * 2^e] with [m * 2^j] the rounded mantissa. *)
Lemma binary_round_aux_long (M : positive) E :
  53 < Z.pos (digits2_pos M) ->
  -1074 <= Z.pos (digits2_pos M) + E - 53 < 971 ->
  exists m e q1 j,
    binary_round_aux prec emax false (Z.pos M) E loc_Exact = S754_finite false m e
    /\ (j = 0 \/ j = 1)
    /\ e = E + (Z.pos (digits2_pos M) - 53) + j
    /\ Z.pos m * 2 ^ j = q1
    /\ 2 * Z.pos M - 2 ^ (Z.pos (digits2_pos M) - 53)
       <= 2 * (q1 * 2 ^ (Z.pos (digits2_pos M) - 53))
       <= 2 * Z.pos M + 2 ^ (Z.pos (digits2_pos M) - 53).
Proof.
  intros Hlong Hexp.
  pose proof (digits2_pos_bounds M) as HM.
  set (dM := Z.pos (digits2_pos M)) in *.
  unfold binary_round_aux, shr_fexp, fexp, emin, prec, emax.
  cbn [Zdigits2 shr_record_of_loc]. fold dM.
  destruct (dM - 53) as [|p|p] eqn:Hp; try lia.
  replace (Z.max (dM + E - 53) (3 - 1024 - 53) - E) with (Z.pos p) by lia.
  destruct (shr_round (Z.pos M) E p ltac:(lia)) as (mrs & q1 & -> & Hq1 & Hb).
  rewrite Hq1.
  assert (Hpow : 0 < 2 ^ Z.pos p) by (apply Z.pow_pos_nonneg; lia).
  assert (H1 : 2 ^ (dM - 1) = 2 ^ 52 * 2 ^ Z.pos p)
    by (rewrite <- Z.pow_add_r by lia; f_equal; lia).
  assert (H2 : 2 ^ dM = 2 ^ 53 * 2 ^ Z.pos p)
    by (rewrite <- Z.pow_add_r by lia; f_equal; lia).
  rewrite H1, H2 in HM.
  assert (Hq : 2 ^ 52 <= q1 <= 2 ^ 53) by nia.
  destruct q1 as [|q|q]; try lia.
  cbn [Zdigits2 shr_record_of_loc].
  destruct (Z.eq_dec (Z.pos q) (2 ^ 53)) as [Htop|Htop].
  - assert (Hqv : q = 9007199254740992%positive) by lia.
    rewrite Hqv in *. clear Hqv Htop.
    exists 4503599627370496%positive, (E + Z.pos p + 1), 9007199254740992, 1.
    change (Z.pos (digits2_pos 9007199254740992)) with 54.
    replace (Z.max (54 + (E + Z.pos p) - 53) (3 - 1024 - 53) - (E + Z.pos p))
      with 1 by lia.
    cbn [shr SpecFloat.iter_pos shr_1 shr_m].
    split.
    + destruct (Z.leb_spec (E + Z.pos p + 1) (1024 - 53)); [done|lia].
    + split; [by right|]. split; [done|]. split; [done|]. exact Hb.
  - assert (Hd : Z.pos (digits2_pos q) = 53) by (apply digits2_pos_unique; lia).
    exists q, (E + Z.pos p), (Z.pos q), 0. rewrite Hd.
    replace (Z.max (53 + (E + Z.pos p) - 53) (3 - 1024 - 53) - (E + Z.pos p))
      with 0 by lia.
    cbn [shr shr_m]. split.
    + destruct (Z.leb_spec (E + Z.pos p) (1024 - 53)); [done|lia].
    + split; [by left|]. split; [lia|]. split; [lia|]. exact Hb.
Qed.

(** The product of a constant in [1/2, 1) and a converted count below
    2^47: the result is finite; with [u] fixed by the size of the exact
    product [Mp * n / 2^53], its mantissa lies within half a unit of
    [Mp * n / 2^u]. *)
Lemma mul_of_int (Mp : positive) n :
  2 ^ 52 <= Z.pos Mp < 2 ^ 53 ->
  0 < n < 2 ^ 47 ->
  exists m e q1 u j,
    mul (S754_finite false Mp (-53)) (of_int n) = S754_finite false m e
    /\ (j = 0 \/ j = 1)
    /\ e = u - 53 + j
    /\ Z.pos m * 2 ^ j = q1
    /\ 0 <= u <= 47
    /\ 2 ^ u * 2 ^ 52 <= Z.pos Mp * n < 2 ^ u * 2 ^ 53
    /\ 2 * (Z.pos Mp * n) - 2 ^ u <= 2 * (q1 * 2 ^ u) <= 2 * (Z.pos Mp * n) + 2 ^ u.
Proof.
  intros HMp Hn.
  destruct (of_int_exact n) as (mz & Hof & Hmz); [lia|].
  rewrite Hof. unfold mul, SFmul. cbn [xorb].
  pose proof (Z.log2_nonneg n) as Hl0.
  assert (Hl1 : Z.log2 n < 47) by (apply Z.log2_lt_pow2; lia).
  pose proof (Z.log2_spec n ltac:(lia)) as Hln.
  set (l := Z.log2 n) in *.
  set (N := Z.pos Mp * n).
  assert (HN : 0 < N) by (subst N; nia).
  pose proof (Z.log2_spec N HN) as HLN.
  assert (HL : 52 + l <= Z.log2 N < 54 + l).
  { split.
    - rewrite <- (Z.log2_pow2 (52 + l)) by lia. apply Z.log2_le_mono.
      rewrite Z.pow_add_r by lia. subst N. nia.
    - apply Z.log2_lt_pow2; [done|].
      replace (54 + l) with (53 + Z.succ l) by lia.
      rewrite Z.pow_add_r by lia. subst N. nia. }
  set (L := Z.log2 N) in *.
  assert (HF : 0 < 2 ^ (52 - l)) by (apply Z.pow_pos_nonneg; lia).
  assert (HM : Z.pos (Mp * mz) = N * 2 ^ (52 - l))
    by (rewrite Pos2Z.inj_mul, Hmz; subst N; ring).
  assert (Hd : Z.pos (digits2_pos (Mp * mz)) = L + 53 - l).
  { rewrite digits2_pos_log2, HM, Z.log2_mul_pow2 by lia. fold L. lia. }
  destruct (binary_round_aux_long (Mp * mz) (-53 + (l - 52)))
    as (m & e & q1 & j & Hmul & Hj & He & Hq1 & Hb); [lia|lia|].
  exists m, e, q1, (L - 52), j.
  split; [exact Hmul|]. split; [exact Hj|]. split; [lia|]. split; [exact Hq1|].
  split; [lia|].
  assert (HU : 0 < 2 ^ (L - 52)) by (apply Z.pow_pos_nonneg; lia).
  split.
  - rewrite <- !Z.pow_add_r by lia.
    replace (L - 52 + 52) with L by lia.
    replace (L - 52 + 53) with (Z.succ L) by lia. exact HLN.
  - rewrite Hd, HM in Hb.
    replace (L + 53 - l - 53) with ((L - 52) + (52 - l)) in Hb by lia.
    rewrite Z.pow_add_r in Hb by lia.
    set (U := 2 ^ (L - 52)) in *. set (F := 2 ^ (52 - l)) in *.
    fold N. split.
    + apply (Z.mul_le_mono_pos_r _ _ F HF). nia.
    + apply (Z.mul_le_mono_pos_r _ _ F HF). nia.
Qed.

(** Rounding up to an integer and converting gives the ceiling of the
    quotient. *)
Lemma to_int_Ceil_finite (m : positive) e c :
  e < 0 ->
  c = - (- Z.pos m / 2 ^ (- e)) ->
  0 < c < 2 ^ 53 ->
  to_int (Ceil (S754_finite false m e)) = c.
Proof.
  intros He Hc Hrange. unfold Ceil.
  destruct (Z.leb_spec 0 e); [lia|].
  change (binary_normalize prec emax ?x 0 false) with (of_int x).
  rewrite <- Hc.
  destruct (of_int_exact c Hrange) as (mz & -> & Hmz).
  pose proof (Z.log2_nonneg c) as Hl0.
  assert (Hl1 : Z.log2 c < 53) by (apply Z.log2_lt_pow2; lia).
  unfold to_int.
  assert (Hmag : (if 0 <=? Z.log2 c - 52
                  then Z.pos mz * 2 ^ (Z.log2 c - 52)
                  else Z.pos mz / 2 ^ (- (Z.log2 c - 52))) = c).
  { destruct (Z.leb_spec 0 (Z.log2 c - 52)).
    - replace (Z.log2 c - 52) with 0 by lia.
      rewrite Hmz. replace (52 - Z.log2 c) with 0 by lia. simpl. lia.
    - rewrite Hmz. replace (- (Z.log2 c - 52)) with (52 - Z.log2 c) by lia.
      apply Z.div_mul. apply Z.pow_nonzero; lia. }
  rewrite Hmag.
  unfold Int64.min_int, Int64.max_int.
  destruct (Z.leb_spec (- 2 ^ 63) c); [|lia].
  destruct (Z.leb_spec c (2 ^ 63 - 1)); [done|lia].
Qed.

(** The arithmetic behind the index: a rounded product of the constant
    and the count lies strictly above [K-1] and not above [K], for [K]
    the ceiling of the exact fraction of the count. *)
Lemma rounded_product_between a b c0 Mp n U T q1 K :
  Mp * b = a * 2 ^ 53 + c0 ->
  -8 <= c0 <= 2 -> 10 <= b <= 100 -> 0 < a < b ->
  2 ^ 52 <= Mp < 2 ^ 53 ->
  0 < n < 2 ^ 47 ->
  0 < U <= 2 ^ 47 -> U * T = 2 ^ 53 ->
  U * 2 ^ 52 <= Mp * n < U * 2 ^ 53 ->
  2 * (Mp * n) - U <= 2 * (q1 * U) <= 2 * (Mp * n) + U ->
  (K - 1) * b < a * n <= K * b ->
  (K - 1) * T < q1 <= K * T.
Proof.
  intros HMp Hc0 Hb Ha HMpr Hn HU HUT HN Hq HK.
  assert (HT : 0 < T) by nia.
  assert (HnU : n < 2 * U).
  { assert (2 ^ 52 * n <= Mp * n) by (apply Z.mul_le_mono_nonneg_r; lia). lia. }
  assert (HNb : Mp * n * b = a * n * 2 ^ 53 + c0 * n).
  { replace (Mp * n * b) with (n * (Mp * b)) by ring. rewrite HMp. ring. }
  assert (HC : -8 * n <= c0 * n <= 2 * n).
  { split; apply Z.mul_le_mono_nonneg_r; lia. }
  assert (HUb : 10 * U <= U * b <= 100 * U).
  { rewrite !(Z.mul_comm _ U). split; apply Z.mul_le_mono_nonneg_l; lia. }
  change (2 ^ 52) with 4503599627370496 in *.
  change (2 ^ 53) with 9007199254740992 in *.
  change (2 ^ 47) with 140737488355328 in *.
  split.
  - destruct (Z.lt_ge_cases ((K - 1) * T) q1) as [|Hle]; [done|exfalso].
    assert (H1 : q1 * U <= (K - 1) * T * U)
      by (apply Z.mul_le_mono_nonneg_r; lia).
    replace ((K - 1) * T * U) with ((K - 1) * (U * T)) in H1 by ring.
    rewrite HUT in H1.
    assert (H2 : 0 <= (2 * (K - 1) * 9007199254740992 + U - 2 * (Mp * n)) * b)
      by (apply Z.mul_nonneg_nonneg; lia).
    lia.
  - destruct (Z.le_gt_cases q1 (K * T)) as [|Hgt]; [done|exfalso].
    assert (H1 : (K * T + 1) * U <= q1 * U)
      by (apply Z.mul_le_mono_nonneg_r; lia).
    replace ((K * T + 1) * U) with (K * (U * T) + U) in H1 by ring.
    rewrite HUT in H1.
    assert (H2 : 0 <= (2 * (Mp * n) - 2 * K * 9007199254740992 - U) * b)
      by (apply Z.mul_nonneg_nonneg; lia).
    lia.
Qed.

End Float64Facts.

(** ** The percentile index *)

Module PercentileFacts.

Import Float64 Float64Facts Metrics Reference.

Lemma ceil_div_spec x y : 0 < y -> (ceil_div x y - 1) * y < x <= ceil_div x y * y.
Proof.
  intros Hy. unfold ceil_div.
  pose proof (Z.div_mod (- x) y ltac:(lia)).
  pose proof (Z.mod_pos_bound (- x) y Hy). nia.
Qed.

Lemma ceil_div_unique x y k : 0 < y -> (k - 1) * y < x <= k * y -> ceil_div x y = k.
Proof.
  intros Hy Hk. unfold ceil_div.
  assert (- x / y = - k); [|lia].
  symmetry. apply Z.div_unique with (r := k * y - x); lia.
Qed.

(** The constants are the fractions rounded to the nearest [float64]. *)
Lemma constants_rounded :
  c0_90 = div (of_int 9) (of_int 10)
  /\ c0_95 = div (of_int 95) (of_int 100)
  /\ c0_99 = div (of_int 99) (of_int 100).
Proof. by vm_compute. Qed.

(** The rounded product, rounded up, is the exact ceiling. *)
Lemma index_exact (Mp : positive) a b c0 n :
  Z.pos Mp * b = a * 2 ^ 53 + c0 ->
  -8 <= c0 <= 2 -> 10 <= b <= 100 -> 0 < a < b ->
  2 ^ 52 <= Z.pos Mp < 2 ^ 53 ->
  0 < n < 2 ^ 47 ->
  to_int (Ceil (mul (S754_finite false Mp (-53)) (of_int n))) = ceil_div (a * n) b.
Proof.
  intros HMp Hc0 Hb Ha HMpr Hn.
  destruct (mul_of_int Mp n HMpr Hn)
    as (m & e & q1 & u & j & -> & Hj & He & Hq1 & Hu & HN & Hq).
  pose proof (ceil_div_spec (a * n) b ltac:(lia)) as HK.
  set (K := ceil_div (a * n) b) in *.
  assert (HU : 0 < 2 ^ u <= 2 ^ 47).
  { split; [apply Z.pow_pos_nonneg; lia|apply Z.pow_le_mono_r; lia]. }
  assert (HUT : 2 ^ u * 2 ^ (53 - u) = 2 ^ 53)
    by (rewrite <- Z.pow_add_r by lia; f_equal; lia).
  pose proof (rounded_product_between a b c0 (Z.pos Mp) n (2 ^ u) (2 ^ (53 - u))
                q1 K HMp Hc0 Hb Ha HMpr Hn HU HUT
                ltac:(rewrite (Z.mul_comm (2 ^ u)), (Z.mul_comm (2 ^ u) (2 ^ 53)) in HN;
                      rewrite !(Z.mul_comm (2 ^ u)); exact HN)
                Hq HK) as Hbetween.
  assert (HKn : 0 < K <= n) by nia.
  apply to_int_Ceil_finite; [lia| |lia].
  fold (ceil_div (Z.pos m) (2 ^ (- e))). symmetry.
  assert (HT : 0 < 2 ^ (- e)) by (apply Z.pow_pos_nonneg; lia).
  apply ceil_div_unique; [done|].
  assert (Hsplit : 2 ^ (53 - u) = 2 ^ j * 2 ^ (- e))
    by (rewrite <- Z.pow_add_r by lia; f_equal; lia).
  rewrite Hsplit, <- Hq1 in Hbetween.
  destruct Hj as [-> | ->]; simpl in Hbetween; nia.
Qed.

Lemma index_of_quantile p a b n :
  quantile p a b -> 0 < n < 2 ^ 47 ->
  to_int (Ceil (mul p (of_int n))) = ceil_div (a * n) b.
Proof.
  intros [| |] Hn.
  - apply index_exact with (c0 := 2); [done|lia..].
  - apply index_exact with (c0 := -8); [done|lia..].
  - apply index_exact with (c0 := -8); [done|lia..].
Qed.

(** With the index exact, the bounds tests of [percentile] change nothing
    and the element is there. *)
Lemma percentile_index durations p a b :
  quantile p a b ->
  durations <> [] ->
  Z.of_nat (length durations) < 2 ^ 47 ->
  percentile durations p
  = durations !! Z.to_nat (nearest_rank a b (Z.of_nat (length durations)))
  /\ 0 <= nearest_rank a b (Z.of_nat (length durations))
       < Z.of_nat (length durations).
Proof.
  intros Hq Hne Hlen.
  set (n := Z.of_nat (length durations)) in *.
  assert (Hn : 0 < n) by (subst n; destruct durations; [done|simpl; lia]).
  assert (Hab : 0 < a < b /\ 0 < b) by (destruct Hq; lia).
  pose proof (ceil_div_spec (a * n) b ltac:(lia)) as HK.
  unfold percentile, nearest_rank. fold n.
  destruct (Z.eqb_spec n 0); [lia|].
  rewrite (index_of_quantile p a b n Hq) by lia.
  set (K := ceil_div (a * n) b) in *.
  assert (HKn : 0 < K <= n) by nia.
  rewrite Int64Facts.sub_small
    by (unfold Int64.in_range, Int64.min_int, Int64.max_int; lia).
  destruct (Z.ltb_spec (K - 1) 0); [lia|].
  rewrite Z.geb_leb. destruct (Z.leb_spec n (K - 1)); [lia|].
  replace (Z.max 0 (Z.min (n - 1) (K - 1))) with (K - 1) by lia.
  unfold index. destruct (Z.ltb_spec (K - 1) 0); [lia|]. split; [done|lia].
Qed.

(** The percentiles of a final report are the nearest-rank elements of the
    samples sorted ascending, rounded to the millisecond. *)
Lemma report_percentiles requests successCount errorCount durations errors
    duration elapsed order r sorted :
  durations <> [] ->
  Z.of_nat (length durations) < 2 ^ 47 ->
  printMetrics requests successCount errorCount durations errors duration
    elapsed true order = Some (r, sorted) ->
  let n := Z.of_nat (length durations) in
  Sorted Z.le sorted /\ sorted ≡ₚ durations
  /\ exists v99 v95 v90,
       sorted !! Z.to_nat (nearest_rank 99 100 n) = Some v99
       /\ sorted !! Z.to_nat (nearest_rank 19 20 n) = Some v95
       /\ sorted !! Z.to_nat (nearest_rank 9 10 n) = Some v90
       /\ rep_latency r
          = Some (Duration.Round v99 Duration.Millisecond,
                  Duration.Round v95 Duration.Millisecond,
                  Duration.Round v90 Duration.Millisecond).
Proof.
  intros Hne Hlen Hprint n. unfold printMetrics in Hprint.
  pose proof (merge_sort_Permutation Z.le durations) as Hperm.
  assert (Hsorted : Sorted Z.le (merge_sort Z.le durations))
    by (apply (Sorted_merge_sort Z.le)).
  set (l := merge_sort Z.le durations) in *.
  assert (Hl : l <> []).
  { intros Hnil. rewrite Hnil in Hperm. by apply Permutation_nil_l in Hperm. }
  assert (Hlen' : length l = length durations) by (by apply Permutation_length).
  destruct (percentile_index l Float64.c0_99 99 100) as [H99 _];
    [constructor|done|by rewrite Hlen'|].
  destruct (percentile_index l Float64.c0_95 19 20) as [H95 _];
    [constructor|done|by rewrite Hlen'|].
  destruct (percentile_index l Float64.c0_90 9 10) as [H90 _];
    [constructor|done|by rewrite Hlen'|].
  rewrite Hlen' in H99, H95, H90. fold n in H99, H95, H90.
  destruct (percentile l Float64.c0_99) as [v99|]; [|done].
  destruct (percentile l Float64.c0_95) as [v95|]; [|done].
  destruct (percentile l Float64.c0_90) as [v90|]; [|done].
  simpl in Hprint. injection Hprint as <- <-.
  split; [done|]. split; [done|].
  exists v99, v95, v90. by repeat split.
Qed.

(** C1: for a non-empty sample list (of fewer than 2^47 samples, which covers
    every [[]time.Duration] that fits a 48-bit address space) and each of
    the fractions 0.90, 0.95 and 0.99, [percentile] returns the element at
    the nearest-rank index [ceil(p * n) - 1] kept inside [0, n - 1]; the
    [float64] product and ceiling of the code agree with the exact
    ceiling. *)
Theorem percentile_is_nearest_rank durations p a b :
  quantile p a b ->
  durations <> [] ->
  Z.of_nat (length durations) < 2 ^ 47 ->
  exists v,
    percentile durations p = Some v
    /\ durations !! Z.to_nat (nearest_rank a b (Z.of_nat (length durations))) = Some v.
Proof.
  intros Hq Hne Hlen.
  destruct (percentile_index durations p a b Hq Hne Hlen) as [Hp Hrange].
  destruct (lookup_lt_is_Some_2 durations
              (Z.to_nat (nearest_rank a b (Z.of_nat (length durations)))))
    as [v Hv]; [lia|].
  exists v. by rewrite Hp.
Qed.

Lemma percentile_is_nearest_rank_witness :
  percentile [10000000; 20000000; 30000000; 40000000; 50000000] c0_90
  = Some 50000000.
Proof.
  destruct (percentile_is_nearest_rank
              [10000000; 20000000; 30000000; 40000000; 50000000] c0_90 9 10)
    as (v & Hp & Hv).
  - constructor.
  - discriminate.
  - reflexivity.
  - rewrite Hp. rewrite <- Hv. reflexivity.
Defined.

End PercentileFacts.

(** ** The final render *)

Module FinalRenderFacts.

Import Exec Metrics MetricsFacts Dispatch Reference Scenarios DispatchFacts.
Import PercentileFacts.

(** Sorting what is sorted changes nothing: the final render of an
    iteration that has just rendered sees the same samples. *)
Lemma merge_sort_twice (l : list Z) :
  merge_sort Z.le (merge_sort Z.le l) = merge_sort Z.le l.
Proof.
  apply (Sorted_unique Z.le).
  - apply (Sorted_merge_sort Z.le).
  - apply (Sorted_merge_sort Z.le).
  - apply merge_sort_Permutation.
Qed.

(** On the sorted samples [percentile] finds the nearest-rank value. *)
Lemma percentile_of_sorted samples p a b :
  quantile p a b ->
  Z.of_nat (length samples) < 2 ^ 47 ->
  percentile (merge_sort Z.le samples) p = Some (nearest_rank_value a b samples).
Proof.
  intros Hq Hlen. unfold nearest_rank_value.
  pose proof (merge_sort_Permutation Z.le samples) as Hperm.
  pose proof (Permutation_length Hperm) as Hlen'.
  destruct (decide (samples = [])) as [->|Hne]; [reflexivity|].
  assert (Hne' : merge_sort Z.le samples <> []).
  { intros Hnil. rewrite Hnil in Hperm. symmetry in Hperm.
    by apply Permutation_nil_r in Hperm. }
  destruct (percentile_index (merge_sort Z.le samples) p a b Hq Hne') as [Hp Hrange];
    [by rewrite Hlen'|].
  rewrite Hlen' in Hp, Hrange. rewrite Hp.
  destruct (lookup_lt_is_Some_2 (merge_sort Z.le samples)
              (Z.to_nat (nearest_rank a b (Z.of_nat (length samples)))))
    as [v Hv]; [lia|].
  by rewrite Hv.
Qed.

(** Without overflow the average over the sorted samples is the sum of the
    samples divided by their number. *)
Lemma average_of_sorted samples :
  Forall (fun d => 0 <= d) samples ->
  sum samples <= Int64.max_int ->
  average (merge_sort Z.le samples) = sum samples / Z.of_nat (length samples).
Proof.
  intros Hall Hmax.
  pose proof (merge_sort_Permutation Z.le samples) as Hperm.
  destruct (decide (samples = [])) as [->|Hne]; [reflexivity|].
  rewrite average_exact.
  - by rewrite (sum_Permutation _ _ Hperm), (Permutation_length Hperm).
  - intros Hnil. rewrite Hnil in Hperm. symmetry in Hperm.
    by apply Permutation_nil_r in Hperm.
  - by rewrite Hperm.
  - by rewrite (sum_Permutation _ _ Hperm).
Qed.

(** What a call of [printMetrics] writes, field by field. *)
Lemma printMetrics_fields requests successCount errorCount durations errors
    duration elapsed printTimes order :
  exists r p99 p95 p90,
    printMetrics requests successCount errorCount durations errors duration
      elapsed printTimes order = Some (r, merge_sort Z.le durations)
    /\ percentile (merge_sort Z.le durations) Float64.c0_99 = Some p99
    /\ percentile (merge_sort Z.le durations) Float64.c0_95 = Some p95
    /\ percentile (merge_sort Z.le durations) Float64.c0_90 = Some p90
    /\ rep_latency r
       = (if printTimes
          then Some (Duration.Round p99 Duration.Millisecond,
                     Duration.Round p95 Duration.Millisecond,
                     Duration.Round p90 Duration.Millisecond)
          else None)
    /\ rep_requests r = requests
    /\ rep_success_count r = successCount
    /\ rep_error_count r = errorCount
    /\ rep_errors r = formatErrors errors order
    /\ rep_elapsed r = Duration.Truncate elapsed Duration.Second
    /\ rep_duration r = (if 0 <? duration then Some duration else None)
    /\ rep_rps r
       = Float64.div (Float64.of_int requests) (Duration.Seconds elapsed)
    /\ rep_avg_duration r
       = Duration.Round (average (merge_sort Z.le durations)) Duration.Millisecond.
Proof.
  unfold printMetrics.
  destruct (percentile_total (merge_sort Z.le durations) Float64.c0_99) as (p99 & H99 & _).
  destruct (percentile_total (merge_sort Z.le durations) Float64.c0_95) as (p95 & H95 & _).
  destruct (percentile_total (merge_sort Z.le durations) Float64.c0_90) as (p90 & H90 & _).
  rewrite H99, H95, H90. simpl.
  eexists _, p99, p95, p90. split; [reflexivity|]. simpl.
  repeat (split; [reflexivity|]). reflexivity.
Qed.

(** C7: when a run duration is set and the time since the start exceeds
    it, the iteration ends with one final render followed by the exit with
    status 0.  That render is the snapshot of the loop as it stands: the
    requests issued (the one admitted in this iteration included), the
    success and error counts, the error breakdown of the recorded errors,
    the elapsed time cut to the second, the run duration, the rate, the
    average (without overflow, the sum of the samples divided by their
    number), and the three percentiles, which (for fewer than 2^47
    samples) are the nearest-rank values of the samples for 99/100, 19/20
    and 9/10, each rounded to the millisecond.  Any render before it in
    that iteration, and every render of an iteration that leaves the
    process running, carries no percentiles. *)
Theorem final_render_then_exit cfg i st :
  0 < duration cfg ->
  duration cfg < at_final (clk i) - started st ->
  let samples := successDurations st in
  let issued := if allow i then Int64.add (requests st) 1 else requests st in
  let elapsed := at_elapsed (clk i) - started st in
  (exists pre r,
      case_default cfg i st = (pre ++ [Render r; Exit 0], None)
      /\ (forall r', Render r' ∈ pre -> rep_latency r' = None)
      /\ is_Some (rep_latency r)
      /\ (Z.of_nat (length samples) < 2 ^ 47 ->
          rep_latency r
          = Some (Duration.Round (nearest_rank_value 99 100 samples) Duration.Millisecond,
                  Duration.Round (nearest_rank_value 19 20 samples) Duration.Millisecond,
                  Duration.Round (nearest_rank_value 9 10 samples) Duration.Millisecond))
      /\ rep_requests r = issued
      /\ rep_success_count r = successCount st
      /\ rep_error_count r = errorCount st
      /\ rep_errors r = formatErrors (errors st) (order_final i)
      /\ rep_elapsed r = Duration.Truncate elapsed Duration.Second
      /\ rep_duration r = Some (duration cfg)
      /\ rep_rps r
         = Float64.div (Float64.of_int issued) (Duration.Seconds elapsed)
      /\ (Forall (fun d => 0 <= d) samples -> sum samples <= Int64.max_int ->
          rep_avg_duration r
          = Duration.Round (sum samples / Z.of_nat (length samples))
              Duration.Millisecond))
  /\ (forall i' st' fx st'' r',
        case_default cfg i' st' = (fx, Some st'') ->
        Render r' ∈ fx -> rep_latency r' = None).
Proof.
  intros Hpos Hover samples issued elapsed.
  split; [|intros; by eapply running_render_has_no_percentiles].
  assert (Hd : (0 <? duration cfg) = true) by by apply Z.ltb_lt.
  (* the final call of [printMetrics], on samples that sort as the loop's do *)
  assert (Hfinal : forall l, merge_sort Z.le l = merge_sort Z.le samples ->
    exists r,
      printMetrics issued (successCount st) (errorCount st) l (errors st)
        (duration cfg) elapsed true (order_final i)
      = Some (r, merge_sort Z.le samples)
      /\ is_Some (rep_latency r)
      /\ (Z.of_nat (length samples) < 2 ^ 47 ->
          rep_latency r
          = Some (Duration.Round (nearest_rank_value 99 100 samples) Duration.Millisecond,
                  Duration.Round (nearest_rank_value 19 20 samples) Duration.Millisecond,
                  Duration.Round (nearest_rank_value 9 10 samples) Duration.Millisecond))
      /\ rep_requests r = issued
      /\ rep_success_count r = successCount st
      /\ rep_error_count r = errorCount st
      /\ rep_errors r = formatErrors (errors st) (order_final i)
      /\ rep_elapsed r = Duration.Truncate elapsed Duration.Second
      /\ rep_duration r = Some (duration cfg)
      /\ rep_rps r
         = Float64.div (Float64.of_int issued) (Duration.Seconds elapsed)
      /\ (Forall (fun d => 0 <= d) samples -> sum samples <= Int64.max_int ->
          rep_avg_duration r
          = Duration.Round (sum samples / Z.of_nat (length samples))
              Duration.Millisecond)).
  { intros l Hl.
    destruct (printMetrics_fields issued (successCount st) (errorCount st) l
                (errors st) (duration cfg) elapsed true (order_final i))
      as (r & p99 & p95 & p90 & Hrun & H99 & H95 & H90 & Hlat & Hreq & Hsucc
          & Herr & Hbreak & Hel & Hdur & Hrps & Havg).
    rewrite Hl in Hrun, H99, H95, H90, Havg. rewrite Hd in Hdur.
    exists r. split; [exact Hrun|]. split; [by rewrite Hlat|].
    split.
    { intros Hlen.
      rewrite (percentile_of_sorted samples _ 99 100) in H99 by (done || constructor).
      rewrite (percentile_of_sorted samples _ 19 20) in H95 by (done || constructor).
      rewrite (percentile_of_sorted samples _ 9 10) in H90 by (done || constructor).
      injection H99 as <-. injection H95 as <-. injection H90 as <-. exact Hlat. }
    repeat (split; [assumption|]).
    intros Hall Hmax. by rewrite Havg, average_of_sorted. }
  unfold case_default. fold issued elapsed.
  rewrite Hd. destruct (Z.ltb_spec (duration cfg) (at_final (clk i) - started st)); [|lia].
  simpl.
  destruct (periodic_cases cfg i issued st) as [(_ & r0 & -> & Hr0)|(_ & ->)];
    change (successDurations st) with samples.
  - destruct (Hfinal (merge_sort Z.le samples) (merge_sort_twice samples))
      as (r & -> & Hfacts).
    exists ((if allow i then [Launch] else []) ++ [Render r0]), r.
    split; [by rewrite <- app_assoc|]. split; [|exact Hfacts].
    intros r'. destruct (allow i); simpl;
      rewrite ?elem_of_cons, ?elem_of_nil; intros Hin;
      repeat destruct Hin as [Hin|Hin]; try done; congruence.
  - destruct (Hfinal samples eq_refl) as (r & -> & Hfacts).
    exists (if allow i then [Launch] else []), r.
    split; [done|]. split; [|exact Hfacts].
    intros r'. destruct (allow i); simpl;
      rewrite ?elem_of_cons, ?elem_of_nil; intros Hin;
      repeat destruct Hin as [Hin|Hin]; done.
Qed.

Lemma final_render_then_exit_witness :
  exists pre r,
    case_default two_seconds closing_round twenty_samples
      = (pre ++ [Render r; Exit 0], None)
    /\ (forall r', Render r' ∈ pre -> rep_latency r' = None)
    /\ rep_latency r = Some (20000000, 19000000, 18000000)
    /\ rep_requests r = 24
    /\ rep_success_count r = 20
    /\ rep_error_count r = 1
    /\ rep_elapsed r = 2000000000
    /\ rep_duration r = Some 2000000000
    /\ rep_avg_duration r = 11000000.
Proof.
  destruct (final_render_then_exit two_seconds closing_round twenty_samples)
    as [(pre & r & Hrun & Hpre & _ & Hlat & Hreq & Hsucc & Herr & _ & Hel
         & Hdur & _ & Havg) _].
  - reflexivity.
  - reflexivity.
  - exists pre, r.
    split; [exact Hrun|]. split; [exact Hpre|].
    split; [rewrite Hlat by reflexivity; vm_compute; reflexivity|].
    split; [rewrite Hreq; vm_compute; reflexivity|].
    split; [exact Hsucc|]. split; [exact Herr|].
    split; [rewrite Hel; vm_compute; reflexivity|].
    split; [exact Hdur|].
    rewrite Havg; [vm_compute; reflexivity| |vm_compute; discriminate].
    repeat (constructor; [lia|]). constructor.
Defined.

End FinalRenderFacts.

(** ** Header strings *)

Module HeaderFacts.

Import GoStrings GoStringsFacts Exec Observations.

Lemma Split_nonempty s : Split s <> [].
Proof.
  destruct s as [|c rest]; simpl; [done|].
  destruct (Ascii.eqb c colon); [done|]. by destruct (Split rest).
Qed.

(** Joining the parts with the separator gives the string back. *)
Lemma Split_join s : String.concat ":" (Split s) = s.
Proof.
  induction s as [|c rest IH]; [done|]. simpl Split.
  destruct (Ascii.eqb_spec c colon) as [->|Hc].
  - pose proof (Split_nonempty rest) as Hne.
    destruct (Split rest) as [|part parts] eqn:Hs; [done|].
    change (String.concat ":" ("" :: part :: parts))
      with (":" +:+ String.concat ":" (part :: parts)).
    by rewrite IH.
  - destruct (Split rest) as [|part parts] eqn:Hs.
    + by destruct (Split_nonempty rest).
    + rewrite <- IH. by destruct parts.
Qed.

(** No part holds a separator. *)
Lemma Split_parts s : Forall (fun part => count_colon part = 0%nat) (Split s).
Proof.
  induction s as [|c rest IH]; simpl; [by repeat constructor|].
  destruct (Ascii.eqb c colon) eqn:Hc; [by constructor|].
  destruct (Split rest) as [|part parts]; simpl.
  - repeat constructor. simpl. by rewrite Hc.
  - apply Forall_cons in IH as [Hpart Hparts].
    constructor; [|done]. simpl. by rewrite Hc.
Qed.

Lemma count_colon_app a b :
  count_colon (a +:+ b) = (count_colon a + count_colon b)%nat.
Proof.
  induction a as [|c a IH]; simpl; [done|].
  destruct (Ascii.eqb c colon); simpl; by rewrite IH.
Qed.

(** A configured header passes the test of the executors exactly when it
    is a name and a value, neither holding a colon, around one colon; the
    field is then set with that name and that value as they stand.  A
    header whose value holds a colon is therefore refused. *)
Theorem header_accepted_iff header :
  malformed header = false
  <-> exists name value,
        count_colon name = 0%nat /\ count_colon value = 0%nat
        /\ header = name +:+ ":" +:+ value
        /\ field header = (name, value).
Proof.
  split.
  - intros Hok. unfold malformed in Hok.
    apply negb_false_iff, Nat.eqb_eq in Hok.
    pose proof (Split_join header) as Hjoin.
    pose proof (Split_parts header) as Hparts.
    unfold field.
    destruct (Split header) as [|name [|value [|]]]; try done.
    apply Forall_cons in Hparts as [Hname Hparts].
    apply Forall_cons in Hparts as [Hvalue _].
    exists name, value. by repeat split.
  - intros (name & value & Hname & Hvalue & -> & _).
    apply malformed_count. rewrite !count_colon_app, Hname, Hvalue. done.
Qed.

End HeaderFacts.

(** ** What one executor does, in each variant *)

Module ExecutorFacts.

Import GoStrings Exec ExecFacts Observations.

Lemma accepted_cons h hs :
  accepted (h :: hs) = if malformed h then accepted hs else h :: accepted hs.
Proof. unfold accepted. simpl. by destruct (malformed h). Qed.

Lemma rejected_cons h hs :
  rejected (h :: hs) = if malformed h then h :: rejected hs else rejected hs.
Proof. unfold rejected. simpl. by destruct (malformed h). Qed.

Lemma accepted_all headers :
  Forall (fun h => malformed h = false) headers -> accepted headers = headers.
Proof.
  induction 1 as [|h hs Hh _ IH]; [done|].
  by rewrite accepted_cons, Hh, IH.
Qed.

(** *** The duration-sampling variant *)

(** The header loop over well-formed headers sets one field per header,
    in order. *)
Lemma sampling_headers_fields w headers (s : exec_state string) :
  Forall (fun h => malformed h = false) headers ->
  exists s',
    for_range (Sampling.header_step w (Some tt)) headers s = (inl tt, s')
    /\ header_sets s' = header_sets s ++ map field headers
    /\ sent s' = sent s /\ logged s' = logged s
    /\ http_calls s' = http_calls s.
Proof.
  intros Hall. revert s.
  induction Hall as [|h hs Hh _ IH]; intros s.
  - exists s. simpl. by rewrite app_nil_r.
  - rewrite for_range_cons, sampling_header_pass by done.
    match goal with |- context [for_range _ hs ?s0] =>
      destruct (IH s0) as (s' & Hrun & Hsets & Hsent & Hlog & Hcalls) end.
    exists s'. rewrite Hrun. simpl in *.
    rewrite Hsets, <- app_assoc. done.
Qed.

Lemma sampling_malformed_run w headers auth t0 :
  new_request_fails w = false ->
  Exists (fun h => malformed h = true) headers ->
  exists s,
    run (Sampling.doRequest w headers auth) t0 = (Exited 1, s)
    /\ sent s = [] /\ http_calls s = 0%nat.
Proof.
  intros Hnew Hbad. unfold run, Sampling.doRequest, init. run_step.
  rewrite Hnew. simpl.
  match goal with |- context [for_range _ headers ?s0] =>
    destruct (sampling_headers_exit w headers s0 Hbad) as (s & Hrun & Hsent & Hcalls)
  end.
  rewrite Hrun. by exists s.
Qed.

(** How an executor of the duration-sampling variant ends decides what it
    has sent: one value when it returns, none when it ends the process.
    It exits only with status 1 and only over a malformed header; it
    panics only over a nil response. *)
Theorem sampling_ending_and_sends w headers auth t0 :
  match run (Sampling.doRequest w headers auth) t0 with
  | (Returned, s) => exists x, sent s = [x]
  | (Exited code, s) =>
      code = 1 /\ sent s = []
      /\ Exists (fun h => malformed h = true) headers
  | (Panicked, s) => sent s = [] /\ do_response w = None
  end.
Proof.
  destruct (new_request_fails w) eqn:Hnew.
  - rewrite sampling_creation_fails by done. eauto.
  - destruct (headers_verdict headers) as [Hok|Hbad].
    + destruct (sampling_performed w headers auth t0 Hnew Hok)
        as (s & Hrun & _ & Hsent).
      rewrite Hrun. destruct (do_response w) as [r|]; [|done].
      rewrite Hsent. destruct (do_fails w); [eauto|].
      destruct (StatusCode r =? 200); eauto.
    + destruct (sampling_malformed_run w headers auth t0 Hnew Hbad)
        as (s & Hrun & Hsent & _).
      rewrite Hrun. done.
Qed.

(** When the request is built and the headers pass, the fields set on the
    request are the configured headers, each cut at its colon, in the order
    given, followed by the credential when a token is configured. *)
Theorem sampling_fields_set w headers auth t0 :
  new_request_fails w = false ->
  Forall (fun h => malformed h = false) headers ->
  header_sets (run (Sampling.doRequest w headers auth) t0).2
  = map field headers ++ bearer auth.
Proof.
  intros Hnew Hok. unfold run, Sampling.doRequest, init, bearer. run_step.
  rewrite Hnew. simpl.
  match goal with |- context [for_range _ headers ?s0] =>
    destruct (sampling_headers_fields w headers s0 Hok)
      as (s & Hrun & Hsets & _)
  end.
  rewrite Hrun. simpl in *.
  destruct (nonempty auth), (do_response w) as [r|], (do_fails w); simpl;
    try destruct (StatusCode r =? 200); simpl;
    by rewrite ?Hsets, ?app_nil_r.
Qed.

Lemma sampling_fields_set_witness :
  header_sets
    (run (Sampling.doRequest
            (Build_world false (Some (Build_response 200)) false 3 5 100 7)
            ["Accept:text/plain"; "X-Id: 7"] "tok") 0).2
  = [("Accept", "text/plain"); ("X-Id", " 7"); ("Authentication", "bearer tok")].
Proof.
  apply (sampling_fields_set
           (Build_world false (Some (Build_response 200)) false 3 5 100 7)
           ["Accept:text/plain"; "X-Id: 7"] "tok" 0).
  - reflexivity.
  - repeat constructor.
Defined.

(** A response with a status other than 200 is reported under the status
    written in decimal, and two different statuses are reported under two
    different labels. *)
Theorem sampling_status_labels w w' headers auth t0 r r' :
  new_request_fails w = false -> new_request_fails w' = false ->
  Forall (fun h => malformed h = false) headers ->
  do_response w = Some r -> do_response w' = Some r' ->
  do_fails w = false -> do_fails w' = false ->
  StatusCode r <> 200 -> StatusCode r' <> 200 ->
  sent (run (Sampling.doRequest w headers auth) t0).2
    = [SendError (pretty (StatusCode r))]
  /\ (sent (run (Sampling.doRequest w headers auth) t0).2
      = sent (run (Sampling.doRequest w' headers auth) t0).2
      -> StatusCode r = StatusCode r').
Proof.
  intros Hnew Hnew' Hok Hr Hr' Herr Herr' Hs Hs'.
  destruct (sampling_performed w headers auth t0 Hnew Hok) as (s & Hrun & _ & Hsent).
  destruct (sampling_performed w' headers auth t0 Hnew' Hok) as (s' & Hrun' & _ & Hsent').
  rewrite Hrun, Hrun'. simpl. rewrite Hsent, Hsent', Hr, Hr', Herr, Herr'.
  destruct (Z.eqb_spec (StatusCode r) 200); [done|].
  destruct (Z.eqb_spec (StatusCode r') 200); [done|].
  split; [done|]. intros [= Heq]. by apply (inj pretty) in Heq.
Qed.

Lemma sampling_status_labels_witness :
  sent (run (Sampling.doRequest
               (Build_world false (Some (Build_response 503)) false 3 5 100 7)
               [] "") 0).2
  = [SendError "503"].
Proof.
  apply (sampling_status_labels
           (Build_world false (Some (Build_response 503)) false 3 5 100 7)
           (Build_world false (Some (Build_response 404)) false 3 5 100 7)
           [] "" 0 (Build_response 503) (Build_response 404));
    try reflexivity; try constructor; discriminate.
Defined.

(** *** The counting variant *)

Lemma counting_header_built w h (s : exec_state Z) :
  Counting.header_step w (Some tt) h s =
  (inl tt,
   if malformed h then
     Build_exec_state (clock s + dt_header w) (sent s) (header_sets s)
       (logged s ++ ["Invalid header: " +:+ h]) (http_calls s)
   else
     Build_exec_state (clock s + dt_header w) (sent s)
       (header_sets s ++ [field h]) (logged s) (http_calls s)).
Proof.
  unfold malformed, Counting.header_step, field. run_step.
  by destruct (negb _).
Qed.

(** On a request that was built the header loop runs to its end: it sets
    the headers that pass and logs the others. *)
Lemma counting_headers_built w headers (s : exec_state Z) :
  exists s',
    for_range (Counting.header_step w (Some tt)) headers s = (inl tt, s')
    /\ header_sets s' = header_sets s ++ map field (accepted headers)
    /\ logged s'
       = logged s ++ map (fun h => "Invalid header: " +:+ h) (rejected headers)
    /\ sent s' = sent s /\ http_calls s' = http_calls s.
Proof.
  revert s. induction headers as [|h hs IH]; intros s.
  - exists s. simpl. by rewrite !app_nil_r.
  - rewrite for_range_cons, counting_header_built, accepted_cons, rejected_cons.
    match goal with |- context [for_range _ hs ?s0] =>
      destruct (IH s0) as (s' & Hrun & Hsets & Hlog & Hsent & Hcalls) end.
    exists s'. rewrite Hrun, Hsets, Hlog, Hsent, Hcalls.
    destruct (malformed h); simpl; by rewrite <- ?app_assoc.
Qed.

(** On a nil request it either panics at the first header that passes, or
    runs to its end; it sends and calls nothing. *)
Lemma counting_headers_unbuilt w headers (s : exec_state Z) :
  exists r s',
    for_range (Counting.header_step w None) headers s = (r, s')
    /\ (r = inl tt \/ r = inr Panicked)
    /\ sent s' = sent s /\ http_calls s' = http_calls s.
Proof.
  revert s. induction headers as [|h hs IH]; intros s.
  - exists (inl tt), s. simpl. eauto.
  - rewrite for_range_cons. unfold Counting.header_step at 1. run_step.
    destruct (negb _); simpl.
    + match goal with |- context [for_range _ hs ?s0] =>
        destruct (IH s0) as (r & s' & Hrun & Hr & Hsent & Hcalls) end.
      exists r, s'. by rewrite Hrun.
    + eexists _, _. split; [reflexivity|]. simpl. eauto.
Qed.

Lemma counting_unbuilt w headers auth t0 :
  new_request_fails w = true ->
  exists s,
    run (Counting.doRequest w headers auth) t0 = (Panicked, s)
    /\ sent s = [SendError 1] /\ http_calls s = 0%nat.
Proof.
  intros Hnew. unfold run, Counting.doRequest, init. run_step.
  rewrite Hnew. simpl.
  match goal with |- context [for_range _ headers ?s0] =>
    destruct (counting_headers_unbuilt w headers s0)
      as (r & s & Hrun & [-> | ->] & Hsent & Hcalls)
  end; rewrite Hrun; simpl in *.
  - destruct (nonempty auth); simpl; eauto.
  - eauto.
Qed.

Lemma counting_built w headers auth t0 :
  new_request_fails w = false ->
  exists s,
    run (Counting.doRequest w headers auth) t0
      = (match do_response w with None => Panicked | Some _ => Returned end, s)
    /\ http_calls s = 1%nat
    /\ header_sets s = map field (accepted headers) ++ bearer auth
    /\ sent s =
        match do_response w with
        | None => []
        | Some r =>
            (if do_fails w then [SendError 1] else [])
            ++ (if StatusCode r =? 200 then [] else [SendError 1])
            ++ [SendSuccess 1]
        end.
Proof.
  intros Hnew. unfold run, Counting.doRequest, init, bearer. run_step.
  rewrite Hnew. simpl.
  match goal with |- context [for_range _ headers ?s0] =>
    destruct (counting_headers_built w headers s0)
      as (s & Hrun & Hsets & Hlog & Hsent & Hcalls)
  end.
  rewrite Hrun. simpl in *.
  destruct (nonempty auth), (do_response w) as [r|], (do_fails w); simpl;
    try destruct (StatusCode r =? 200); simpl;
    eexists; (split; [reflexivity|]); simpl;
    rewrite ?Hcalls, ?Hsent, ?Hsets, ?app_nil_r; done.
Qed.

(** *** The basic variant *)

Lemma basic_header_built w h (s : exec_state Empty_set) :
  Basic.header_step w (Some tt) h s =
  (inl tt,
   if malformed h then
     Build_exec_state (clock s + dt_header w) (sent s) (header_sets s)
       (logged s ++ ["Invalid header: " +:+ h]) (http_calls s)
   else
     Build_exec_state (clock s + dt_header w) (sent s)
       (header_sets s ++ [field h]) (logged s) (http_calls s)).
Proof.
  unfold malformed, Basic.header_step, field. run_step.
  by destruct (negb _).
Qed.

Lemma basic_headers_built w headers (s : exec_state Empty_set) :
  exists s',
    for_range (Basic.header_step w (Some tt)) headers s = (inl tt, s')
    /\ header_sets s' = header_sets s ++ map field (accepted headers)
    /\ logged s'
       = logged s ++ map (fun h => "Invalid header: " +:+ h) (rejected headers)
    /\ http_calls s' = http_calls s.
Proof.
  revert s. induction headers as [|h hs IH]; intros s.
  - exists s. simpl. by rewrite !app_nil_r.
  - rewrite for_range_cons, basic_header_built, accepted_cons, rejected_cons.
    match goal with |- context [for_range _ hs ?s0] =>
      destruct (IH s0) as (s' & Hrun & Hsets & Hlog & Hcalls) end.
    exists s'. rewrite Hrun, Hsets, Hlog, Hcalls.
    destruct (malformed h); simpl; by rewrite <- ?app_assoc.
Qed.

Lemma basic_headers_unbuilt w headers (s : exec_state Empty_set) :
  exists r s',
    for_range (Basic.header_step w None) headers s = (r, s')
    /\ (r = inl tt \/ r = inr Panicked)
    /\ http_calls s' = http_calls s.
Proof.
  revert s. induction headers as [|h hs IH]; intros s.
  - exists (inl tt), s. simpl. eauto.
  - rewrite for_range_cons. unfold Basic.header_step at 1. run_step.
    destruct (negb _); simpl.
    + match goal with |- context [for_range _ hs ?s0] =>
        destruct (IH s0) as (r & s' & Hrun & Hr & Hcalls) end.
      exists r, s'. by rewrite Hrun.
    + eexists _, _. split; [reflexivity|]. simpl. eauto.
Qed.

Lemma basic_unbuilt w headers t0 :
  new_request_fails w = true ->
  exists s,
    run (Basic.doRequest w headers) t0 = (Panicked, s) /\ http_calls s = 0%nat.
Proof.
  intros Hnew. unfold run, Basic.doRequest, init. run_step.
  rewrite Hnew. simpl.
  match goal with |- context [for_range _ headers ?s0] =>
    destruct (basic_headers_unbuilt w headers s0)
      as (r & s & Hrun & [-> | ->] & Hcalls)
  end; rewrite Hrun; simpl in *; eauto.
Qed.

Lemma basic_built w headers t0 :
  new_request_fails w = false ->
  exists s,
    run (Basic.doRequest w headers) t0
      = (match do_response w with None => Panicked | Some _ => Returned end, s)
    /\ http_calls s = 1%nat
    /\ header_sets s = map field (accepted headers).
Proof.
  intros Hnew. unfold run, Basic.doRequest, init. run_step.
  rewrite Hnew. simpl.
  match goal with |- context [for_range _ headers ?s0] =>
    destruct (basic_headers_built w headers s0)
      as (s & Hrun & Hsets & Hlog & Hcalls)
  end.
  rewrite Hrun. simpl in *.
  destruct (do_response w) as [r|], (do_fails w); simpl;
    eexists; (split; [reflexivity|]); simpl; rewrite ?Hcalls, ?Hsets; done.
Qed.

(** *** Across the variants *)

(** No executor of any variant calls the HTTP client more than once: a
    failed request is never tried again. *)
Theorem at_most_one_http_call w headers auth t0 :
  (http_calls (run (Sampling.doRequest w headers auth) t0).2 <= 1)%nat
  /\ (http_calls (run (Counting.doRequest w headers auth) t0).2 <= 1)%nat
  /\ (http_calls (run (Basic.doRequest w headers) t0).2 <= 1)%nat.
Proof.
  destruct (new_request_fails w) eqn:Hnew.
  - rewrite sampling_creation_fails by done.
    destruct (counting_unbuilt w headers auth t0 Hnew) as (sc & Hc & _ & Hcc).
    destruct (basic_unbuilt w headers t0 Hnew) as (sb & Hb & Hbc).
    rewrite Hc, Hb. simpl. lia.
  - destruct (counting_built w headers auth t0 Hnew) as (sc & Hc & Hcc & _).
    destruct (basic_built w headers t0 Hnew) as (sb & Hb & Hbc & _).
    rewrite Hc, Hb. simpl. split; [|lia].
    destruct (headers_verdict headers) as [Hok|Hbad].
    + destruct (sampling_performed w headers auth t0 Hnew Hok) as (s & Hs & Hsc & _).
      rewrite Hs. simpl. lia.
    + destruct (sampling_malformed_run w headers auth t0 Hnew Hbad)
        as (s & Hs & _ & Hsc).
      rewrite Hs. simpl. lia.
Qed.

(** In the counting variant an executor whose request was built and whose
    call gave a response returns, and what it reports ends with a success
    whatever the response was: an error for a transport error, an error
    for a status other than 200, then the success. *)
Theorem counting_reports w headers auth t0 r :
  new_request_fails w = false ->
  do_response w = Some r ->
  exists s,
    run (Counting.doRequest w headers auth) t0 = (Returned, s)
    /\ sent s = (if do_fails w then [SendError 1] else [])
                ++ (if StatusCode r =? 200 then [] else [SendError 1])
                ++ [SendSuccess 1].
Proof.
  intros Hnew Hr.
  destruct (counting_built w headers auth t0 Hnew) as (s & Hrun & _ & _ & Hsent).
  rewrite Hr in *. eauto.
Qed.

Lemma counting_reports_witness :
  exists s,
    run (Counting.doRequest
           (Build_world false (Some (Build_response 404)) true 3 5 100 7)
           ["no separator"] "") 0 = (Returned, s)
    /\ sent s = [SendError 1; SendError 1; SendSuccess 1].
Proof.
  apply (counting_reports
           (Build_world false (Some (Build_response 404)) true 3 5 100 7)
           ["no separator"] "" 0 (Build_response 404)); reflexivity.
Defined.

(** In the counting and the basic variant a request that cannot be built
    is not given up: the executor goes on with the nil request and panics
    on it, at the latest in the call of the client, which it never
    reaches.  The counting variant has by then reported one error. *)
Theorem unbuilt_request_panics w headers auth t0 :
  new_request_fails w = true ->
  (exists s, run (Counting.doRequest w headers auth) t0 = (Panicked, s)
             /\ sent s = [SendError 1] /\ http_calls s = 0%nat)
  /\ (exists s, run (Basic.doRequest w headers) t0 = (Panicked, s)
                /\ http_calls s = 0%nat).
Proof.
  intros Hnew. split.
  - by apply counting_unbuilt.
  - by apply basic_unbuilt.
Qed.

Lemma unbuilt_request_panics_witness :
  (exists s, run (Counting.doRequest (Build_world true None true 3 5 100 7)
                    ["A:B"] "tok") 0 = (Panicked, s)
             /\ sent s = [SendError 1] /\ http_calls s = 0%nat)
  /\ (exists s, run (Basic.doRequest (Build_world true None true 3 5 100 7)
                       ["A:B"]) 0 = (Panicked, s)
                /\ http_calls s = 0%nat).
Proof.
  apply (unbuilt_request_panics (Build_world true None true 3 5 100 7)
           ["A:B"] "tok" 0).
  reflexivity.
Defined.

(** In the counting and the basic variant a malformed header is logged
    and skipped: on a request that was built, the fields set are those of
    the headers that pass, in order (followed, in the counting variant, by
    the credential when a token is configured), and the client is called
    once. *)
Theorem malformed_headers_skipped w headers auth t0 :
  new_request_fails w = false ->
  header_sets (run (Counting.doRequest w headers auth) t0).2
    = map field (accepted headers) ++ bearer auth
  /\ header_sets (run (Basic.doRequest w headers) t0).2
     = map field (accepted headers)
  /\ http_calls (run (Counting.doRequest w headers auth) t0).2 = 1%nat
  /\ http_calls (run (Basic.doRequest w headers) t0).2 = 1%nat.
Proof.
  intros Hnew.
  destruct (counting_built w headers auth t0 Hnew) as (sc & Hc & Hcc & Hsets & _).
  destruct (basic_built w headers t0 Hnew) as (sb & Hb & Hbc & Hsetsb).
  rewrite Hc, Hb. done.
Qed.

Lemma malformed_headers_skipped_witness :
  header_sets
    (run (Counting.doRequest
            (Build_world false (Some (Build_response 200)) false 3 5 100 7)
            ["A:B"; "no separator"; "C:D:E"; "F:G"] "") 0).2
  = [("A", "B"); ("F", "G")].
Proof.
  apply (malformed_headers_skipped
           (Build_world false (Some (Build_response 200)) false 3 5 100 7)
           ["A:B"; "no separator"; "C:D:E"; "F:G"] "" 0).
  reflexivity.
Defined.

End ExecutorFacts.

(** ** The error tally and the statistics of a report *)

Module ReportFacts.

Import Metrics Int64Facts Reference MetricsFacts Observations.
Import Float64 Float64Facts PercentileFacts.

Lemma occurrences_bounds k errors :
  0 <= occurrences k errors <= Z.of_nat (length errors).
Proof.
  induction errors as [|e errors IH]; simpl occurrences; simpl length; [lia|].
  destruct (String.eqb e k); lia.
Qed.

Lemma occurrences_elem_of k errors : occurrences k errors <> 0 <-> k ∈ errors.
Proof.
  induction errors as [|e errors IH]; simpl.
  - split; [done|by intros ?%elem_of_nil].
  - pose proof (occurrences_bounds k errors).
    rewrite elem_of_cons, <- IH.
    destruct (String.eqb_spec e k) as [->|Hne]; [split; [by left|lia]|].
    split; [intros; right; lia|]. intros [->|]; [done|lia].
Qed.

(** The counting loop over a map that already holds some counts. *)
Lemma tally_from (m : gmap string Z) errors k :
  0 <= default 0 (m !! k) ->
  default 0 (m !! k) + occurrences k errors <= Int64.max_int ->
  foldl (fun m err => <[err := Int64.add (default 0 (m !! err)) 1]> m) m errors !! k
  = if occurrences k errors =? 0 then m !! k
    else Some (default 0 (m !! k) + occurrences k errors).
Proof.
  revert m. induction errors as [|e errors IH]; intros m Hlo Hhi; [done|].
  pose proof (occurrences_bounds k errors) as Hocc.
  simpl foldl. simpl occurrences in *.
  destruct (String.eqb_spec e k) as [->|Hne].
  - rewrite IH; rewrite lookup_insert_eq; simpl;
      rewrite add_small
        by (unfold Int64.in_range, Int64.min_int, Int64.max_int in *; lia);
      try lia.
    destruct (Z.eqb_spec (occurrences k errors) 0) as [->|];
      destruct (Z.eqb_spec (1 + occurrences k errors) 0); try lia; f_equal; lia.
  - rewrite IH; rewrite lookup_insert_ne by done; try lia. done.
Qed.

Lemma tally_lookup errors k :
  Z.of_nat (length errors) <= Int64.max_int ->
  tally errors !! k
  = if occurrences k errors =? 0 then None else Some (occurrences k errors).
Proof.
  intros Hlen. pose proof (occurrences_bounds k errors).
  unfold tally. rewrite tally_from; rewrite lookup_empty; simpl; try lia. done.
Qed.

(** The tally holds, for every label that was recorded, the number of
    times it was recorded, and nothing for any other label (for fewer than
    2^63 errors, the reach of the counters). *)
Theorem tally_counts errors k :
  Z.of_nat (length errors) <= Int64.max_int ->
  tally errors !! k
  = if occurrences k errors =? 0 then None else Some (occurrences k errors).
Proof.
  intros Hlen. pose proof (occurrences_bounds k errors).
  unfold tally. rewrite tally_from; rewrite lookup_empty; simpl; try lia. done.
Qed.

Lemma tally_counts_witness :
  tally ["500"; "500"; "timeout"] !! "500" = Some 2.
Proof.
  apply (tally_counts ["500"; "500"; "timeout"] "500"). by vm_compute.
Defined.


Lemma append_nil_r s : s +:+ "" = s.
Proof.
  induction s as [|c s IH]; [done|].
  change (String c (s +:+ "") = String c s). by rewrite IH.
Qed.

Lemma append_assoc s1 s2 s3 : (s1 +:+ s2) +:+ s3 = s1 +:+ (s2 +:+ s3).
Proof.
  induction s1 as [|c s1 IH]; [done|].
  change (String c ((s1 +:+ s2) +:+ s3) = String c (s1 +:+ (s2 +:+ s3))).
  by rewrite IH.
Qed.

Lemma concat_cons s l : String.concat "" (s :: l) = s +:+ String.concat "" l.
Proof. destruct l; simpl; by rewrite ?append_nil_r. Qed.

Lemma foldl_append {A} (g : A -> string) l acc :
  foldl (fun acc x => acc +:+ g x) acc l = acc +:+ String.concat "" (map g l).
Proof.
  revert acc. induction l as [|x l IH]; intros acc.
  - simpl. by rewrite append_nil_r.
  - simpl foldl. rewrite IH. simpl map. by rewrite concat_cons, append_assoc.
Qed.

(** Whatever the order in which the map is visited, the error breakdown
    has one line for each label that was recorded, none twice and no
    other, and each line carries the number of times its label was
    recorded. *)
Theorem breakdown_lines errors order :
  Z.of_nat (length errors) <= Int64.max_int ->
  range_order (tally errors) order ->
  NoDup order
  /\ (forall k, k ∈ order <-> k ∈ errors)
  /\ formatErrors errors order
     = String.concat ""
         (map (fun k => "Error " +:+ k +:+ ": " +:+ pretty (occurrences k errors)
                        +:+ newline) order).
Proof.
  intros Hlen Horder. unfold range_order in Horder.
  assert (Hin : forall k, k ∈ order <-> k ∈ errors).
  { intros k. rewrite Horder, list_elem_of_fmap. split.
    - intros ([k' v] & -> & Hkv). apply elem_of_map_to_list in Hkv.
      rewrite tally_lookup in Hkv by done. simpl.
      apply occurrences_elem_of.
      by destruct (Z.eqb_spec (occurrences k' errors) 0).
    - intros Hk%occurrences_elem_of.
      exists (k, occurrences k errors). split; [done|].
      apply elem_of_map_to_list. rewrite tally_lookup by done.
      by destruct (Z.eqb_spec (occurrences k errors) 0). }
  split; [rewrite Horder; apply NoDup_fst_map_to_list|]. split; [done|].
  unfold formatErrors.
  destruct errors as [|e errors'] eqn:Herrors.
  - assert (order = []) as ->; [|done].
    destruct order as [|k order']; [done|].
    assert (Hk : k ∈ @nil string) by (apply Hin; left).
    by apply elem_of_nil in Hk.
  - rewrite <- Herrors in *. replace (0 <? length errors)%nat with true
      by (subst errors; done).
    rewrite foldl_append.
    change ("" +:+ ?x) with x. f_equal.
    apply map_ext_in. intros k Hk%list_elem_of_In%Hin%occurrences_elem_of.
    unfold error_line. rewrite tally_lookup by done.
    by destruct (Z.eqb_spec (occurrences k errors) 0).
Qed.

Lemma breakdown_lines_witness :
  formatErrors ["500"; "timeout"; "500"] ["timeout"; "500"]
  = String.concat ""
      (map (fun k => "Error " +:+ k +:+ ": "
                     +:+ pretty (occurrences k ["500"; "timeout"; "500"])
                     +:+ newline) ["timeout"; "500"]).
Proof.
  apply (breakdown_lines ["500"; "timeout"; "500"] ["timeout"; "500"]).
  - by vm_compute.
  - unfold range_order.
    replace ((map_to_list (tally ["500"; "timeout"; "500"])).*1)
      with ["500"; "timeout"] by (vm_compute; reflexivity).
    apply Permutation_swap.
Defined.

(** Whatever the fraction asked for, a number, an infinity or not a
    number, [percentile] of a non-empty slice stays inside the slice: it
    returns one of the samples and cannot panic on its index. *)
Theorem percentile_stays_inside durations p :
  durations <> [] ->
  exists v, percentile durations p = Some v /\ v ∈ durations.
Proof.
  intros Hne. destruct (percentile_total durations p) as (v & Hv & Hin).
  exists v. split; [exact Hv|by apply Hin].
Qed.

Lemma percentile_stays_inside_witness :
  exists v, percentile [30; 10; 20] S754_nan = Some v /\ v ∈ [30; 10; 20].
Proof.
  apply (percentile_stays_inside [30; 10; 20] S754_nan). discriminate.
Defined.

(** [Round] to the millisecond on a duration that is not negative adds
    half a millisecond and cuts. *)
Lemma Round_formula d :
  0 <= d <= Int64.max_int - Duration.Millisecond ->
  Duration.Round d Duration.Millisecond = (d + 500000) / 1000000 * 1000000.
Proof.
  unfold Duration.Round, Duration.Millisecond, Duration.lessThanHalf,
    Int64.rem, Int64.max_int.
  intros Hd. change (1000000 <=? 0) with false. cbv iota.
  destruct (Z.ltb_spec d 0); [lia|].
  rewrite Z.rem_mod_nonneg by lia.
  pose proof (Z.div_mod d 1000000 ltac:(lia)) as Hdm.
  pose proof (Z.mod_pos_bound d 1000000 ltac:(lia)) as Hr.
  set (r := d mod 1000000) in *. set (q := d / 1000000) in *.
  rewrite (Z.mod_small (r + r)), (Z.mod_small 1000000) by lia.
  destruct (Z.ltb_spec (r + r) 1000000).
  - rewrite sub_small by (unfold Int64.in_range, Int64.min_int, Int64.max_int; lia).
    assert ((d + 500000) / 1000000 = q); [|lia].
    symmetry. apply Z.div_unique with (r := r + 500000); lia.
  - rewrite (add_small d) by (unfold Int64.in_range, Int64.min_int, Int64.max_int; lia).
    rewrite sub_small by (unfold Int64.in_range, Int64.min_int, Int64.max_int; lia).
    destruct (Z.ltb_spec d (d + 1000000 - r)); [|lia].
    assert ((d + 500000) / 1000000 = q + 1); [|lia].
    symmetry. apply Z.div_unique with (r := r - 500000); lia.
Qed.

Lemma Round_monotone d d' :
  0 <= d -> d <= d' -> d' <= Int64.max_int - Duration.Millisecond ->
  Duration.Round d Duration.Millisecond <= Duration.Round d' Duration.Millisecond.
Proof.
  intros Hd Hle Hmax. rewrite !Round_formula by lia.
  apply Z.mul_le_mono_nonneg_r; [lia|].
  apply Z.div_le_mono; lia.
Qed.

Lemma sorted_lookup_le (l : list Z) i j a b :
  Sorted Z.le l -> (i <= j)%nat -> l !! i = Some a -> l !! j = Some b -> a <= b.
Proof.
  intros Hsorted%(Sorted_StronglySorted Z.le). revert i j.
  induction Hsorted as [|x l _ IH Hall]; intros i j Hij Ha Hb; [done|].
  destruct i as [|i], j as [|j]; simpl in *; try lia.
  - injection Ha as <-. injection Hb as <-. lia.
  - injection Ha as <-. rewrite Forall_forall in Hall.
    apply Hall. by eapply list_elem_of_lookup_2.
  - apply (IH i j); [lia|done..].
Qed.

Lemma nearest_rank_order n :
  0 < n ->
  0 <= nearest_rank 9 10 n <= nearest_rank 19 20 n
  /\ nearest_rank 19 20 n <= nearest_rank 99 100 n.
Proof.
  intros Hn. unfold nearest_rank.
  pose proof (ceil_div_spec (9 * n) 10 ltac:(lia)).
  pose proof (ceil_div_spec (19 * n) 20 ltac:(lia)).
  pose proof (ceil_div_spec (99 * n) 100 ltac:(lia)).
  lia.
Qed.

(** The three percentiles of a final report come out in order: over
    samples that are not negative (and leave room for the rounding), the
    printed p90 is at most the printed p95, which is at most the printed
    p99. *)
Theorem report_percentiles_ordered requests successCount errorCount durations
    errors duration elapsed order r sorted :
  durations <> [] ->
  Z.of_nat (length durations) < 2 ^ 47 ->
  Forall (fun d => 0 <= d <= Int64.max_int - Duration.Millisecond) durations ->
  printMetrics requests successCount errorCount durations errors duration
    elapsed true order = Some (r, sorted) ->
  exists p99 p95 p90,
    rep_latency r = Some (p99, p95, p90) /\ p90 <= p95 <= p99.
Proof.
  intros Hne Hlen Hrange Hprint.
  destruct (report_percentiles _ _ _ _ _ _ _ _ _ _ Hne Hlen Hprint)
    as (Hsorted & Hperm & v99 & v95 & v90 & H99 & H95 & H90 & Hlat).
  assert (Hn : 0 < Z.of_nat (length durations))
    by (destruct durations; [done|simpl; lia]).
  destruct (nearest_rank_order _ Hn) as [[H0 H1] H2].
  assert (Hin : forall i v, sorted !! i = Some v ->
                  0 <= v <= Int64.max_int - Duration.Millisecond).
  { intros i v Hv. rewrite Forall_forall in Hrange. apply Hrange.
    rewrite <- Hperm. by eapply list_elem_of_lookup_2. }
  set (n := Z.of_nat (length durations)) in *.
  assert (Hr1 : (Z.to_nat (nearest_rank 9 10 n) <= Z.to_nat (nearest_rank 19 20 n))%nat)
    by lia.
  assert (Hr2 : (Z.to_nat (nearest_rank 19 20 n) <= Z.to_nat (nearest_rank 99 100 n))%nat)
    by lia.
  pose proof (sorted_lookup_le sorted _ _ v90 v95 Hsorted Hr1 H90 H95).
  pose proof (sorted_lookup_le sorted _ _ v95 v99 Hsorted Hr2 H95 H99).
  pose proof (Hin _ _ H90). pose proof (Hin _ _ H95). pose proof (Hin _ _ H99).
  eexists _, _, _. split; [exact Hlat|].
  split; apply Round_monotone; lia.
Qed.

Lemma report_percentiles_ordered_witness :
  exists r sorted p99 p95 p90,
    printMetrics 3 3 0 [7400000; 1200000; 3600000] [] 0 1000000000 true []
      = Some (r, sorted)
    /\ rep_latency r = Some (p99, p95, p90) /\ p90 <= p95 <= p99.
Proof.
  destruct (printMetrics 3 3 0 [7400000; 1200000; 3600000] [] 0 1000000000 true [])
    as [[r sorted]|] eqn:Hprint; [|by vm_compute in Hprint].
  destruct (report_percentiles_ordered 3 3 0 [7400000; 1200000; 3600000] [] 0
              1000000000 [] r sorted) as (p99 & p95 & p90 & Hlat & Hle);
    [discriminate|reflexivity| |exact Hprint|].
  - repeat constructor; by vm_compute.
  - exists r, sorted, p99, p95, p90.
    split; [reflexivity|]. split; [exact Hlat|exact Hle].
Defined.

(** The average lies between the least and the greatest sample: for
    non-empty samples between [lo] and [hi], none negative and their sum
    within 64 bits, the average computed is between [lo] and [hi]. *)
Theorem average_between durations lo hi :
  durations <> [] ->
  0 <= lo ->
  Forall (fun d => lo <= d <= hi) durations ->
  sum durations <= Int64.max_int ->
  lo <= average durations <= hi.
Proof.
  intros Hne Hlo Hall Hmax.
  assert (Hn : 0 < Z.of_nat (length durations))
    by (destruct durations; [done|simpl; lia]).
  rewrite average_exact; [|done| |done].
  - assert (Hsum : Z.of_nat (length durations) * lo <= sum durations
                   <= Z.of_nat (length durations) * hi).
    { clear Hne Hmax Hn. unfold sum.
      induction Hall as [|d l Hd _ IH]; simpl foldr; simpl length; [lia|]. lia. }
    split.
    + apply Z.div_le_lower_bound; lia.
    + apply Z.div_le_upper_bound; lia.
  - eapply Forall_impl; [exact Hall|]. simpl. lia.
Qed.

Lemma average_between_witness : 10 <= average [10; 20; 35] <= 35.
Proof.
  apply (average_between [10; 20; 35] 10 35).
  - discriminate.
  - lia.
  - repeat constructor; lia.
  - by vm_compute.
Defined.

(** A report made when no time has passed yet divides by zero seconds:
    with at least one request counted, the rate it shows is not a number
    of requests per second but the positive infinity. *)
Theorem rate_at_zero_elapsed requests successCount errorCount durations errors
    duration printTimes order r sorted :
  0 < requests < 2 ^ 53 ->
  printMetrics requests successCount errorCount durations errors duration 0
    printTimes order = Some (r, sorted) ->
  rep_rps r = S754_infinity false.
Proof.
  intros Hreq. unfold printMetrics.
  destruct (percentile _ c0_99); [|done].
  destruct (percentile _ c0_95); [|done].
  destruct (percentile _ c0_90); [|done].
  simpl. intros [= <- _]. simpl.
  destruct (of_int_exact requests Hreq) as (mz & -> & _).
  reflexivity.
Qed.

Lemma rate_at_zero_elapsed_witness :
  exists r sorted,
    printMetrics 1 0 0 [] [] 0 0 false [] = Some (r, sorted)
    /\ rep_rps r = S754_infinity false.
Proof.
  destruct (printMetrics 1 0 0 [] [] 0 0 false []) as [[r sorted]|] eqn:Hprint;
    [|vm_compute in Hprint; discriminate].
  exists r, sorted. split; [reflexivity|].
  apply (rate_at_zero_elapsed 1 0 0 [] [] 0 false [] r sorted); [|exact Hprint].
  split; reflexivity.
Defined.

End ReportFacts.

(** ** The dispatch loop of the duration-sampling variant, step by step *)

Module LoopFacts.

Import Exec Metrics MetricsFacts Dispatch Reference Accounting Scenarios.
Import Observations ExecFacts ExecutorFacts DispatchFacts.

(** A [default] branch that leaves the process running: the state it
    leaves and the effects it has. *)
Lemma case_default_running cfg i st fx st' :
  case_default cfg i st = (fx, Some st') ->
  started st' = started st
  /\ requests st' = (if allow i then Int64.add (requests st) 1 else requests st)
  /\ successCount st' = successCount st
  /\ errorCount st' = errorCount st
  /\ errors st' = errors st
  /\ ~ (0 < duration cfg /\ duration cfg < at_final (clk i) - started st)
  /\ ((at_check (clk i) - lastPrint st <= 1 * Duration.Second
       /\ lastPrint st' = at_reset (clk i)
       /\ successDurations st' = merge_sort Z.le (successDurations st)
       /\ exists r, fx = (if allow i then [Launch] else []) ++ [Render r]
                    /\ rep_latency r = None)
      \/ (1 * Duration.Second < at_check (clk i) - lastPrint st
          /\ lastPrint st' = lastPrint st
          /\ successDurations st' = successDurations st
          /\ fx = if allow i then [Launch] else [])).
Proof.
  unfold case_default.
  set (n := if allow i then _ else _).
  destruct (periodic_cases cfg i n st) as [(Hle & r0 & -> & Hr0)|(Hgt & ->)].
  - destruct (Z.ltb_spec 0 (duration cfg));
      destruct (Z.ltb_spec (duration cfg) (at_final (clk i) - started st));
      simpl;
      try (destruct (printMetrics _ _ _ _ _ _ _ true _) as [[? ?]|]; done);
      intros [= <- <-]; simpl; (repeat split; try done; try lia);
      left; repeat split; eauto.
  - destruct (Z.ltb_spec 0 (duration cfg));
      destruct (Z.ltb_spec (duration cfg) (at_final (clk i) - started st));
      simpl;
      try (destruct (printMetrics _ _ _ _ _ _ _ true _) as [[? ?]|]; done);
      intros [= <- <-]; simpl; (repeat split; try done; try lia);
      right; repeat split; try done; by rewrite app_nil_r.
Qed.

(** A [default] branch that ends the process does so by the final render
    and [os.Exit(0)], on a run duration that is set and exceeded. *)
Lemma case_default_ended cfg i st fx :
  case_default cfg i st = (fx, None) ->
  0 < duration cfg
  /\ duration cfg < at_final (clk i) - started st
  /\ exists pre r, fx = pre ++ [Render r; Exit 0].
Proof.
  unfold case_default.
  set (n := if allow i then _ else _).
  destruct (periodic_cases cfg i n st) as [(Hle & r0 & -> & Hr0)|(Hgt & ->)].
  - destruct (Z.ltb_spec 0 (duration cfg));
      destruct (Z.ltb_spec (duration cfg) (at_final (clk i) - started st));
      simpl; try done.
    destruct (printMetrics_total n (successCount st) (errorCount st)
                (merge_sort Z.le (successDurations st)) (errors st) (duration cfg)
                (at_elapsed (clk i) - started st) true (order_final i))
      as (r & -> & _).
    intros [= <-]. repeat split; try done.
    exists ((if allow i then [Launch] else []) ++ [Render r0]), r.
    by rewrite <- app_assoc.
  - destruct (Z.ltb_spec 0 (duration cfg));
      destruct (Z.ltb_spec (duration cfg) (at_final (clk i) - started st));
      simpl; try done.
    destruct (printMetrics_total n (successCount st) (errorCount st)
                (successDurations st) (errors st) (duration cfg)
                (at_elapsed (clk i) - started st) true (order_final i))
      as (r & -> & _).
    intros [= <-]. repeat split; try done.
    by exists (if allow i then [Launch] else []), r.
Qed.

(** [printMetrics] sorts the slice it is given, and the slice is the
    loop's own: after an iteration that rendered, the loop holds its
    samples in ascending order; after one that did not, as they were.
    Either way they are the same samples, and the recorded errors are
    untouched. *)
Theorem render_sorts_the_samples cfg i st fx st' :
  case_default cfg i st = (fx, Some st') ->
  successDurations st' ≡ₚ successDurations st
  /\ errors st' = errors st
  /\ (at_check (clk i) - lastPrint st <= 1 * Duration.Second ->
      Sorted Z.le (successDurations st'))
  /\ (1 * Duration.Second < at_check (clk i) - lastPrint st ->
      successDurations st' = successDurations st).
Proof.
  intros Hrun.
  destruct (case_default_running cfg i st fx st' Hrun)
    as (_ & _ & _ & _ & Herr & _ & [(Hle & _ & -> & _)|(Hgt & _ & -> & _)]).
  - split; [apply merge_sort_Permutation|]. split; [done|].
    split; [intros _; apply (Sorted_merge_sort Z.le)|lia].
  - split; [done|]. split; [done|]. split; [lia|done].
Qed.

Lemma render_sorts_the_samples_witness :
  exists fx st',
    case_default unbounded (instant false 500000000)
      (case_success 10 (case_success 30 (case_success 20 (initial 0))))
      = (fx, Some st')
    /\ successDurations st' = [10; 20; 30].
Proof.
  destruct (case_default unbounded (instant false 500000000)
              (case_success 10 (case_success 30 (case_success 20 (initial 0)))))
    as [fx [st'|]] eqn:Hrun; [|by vm_compute in Hrun].
  exists fx, st'. split; [reflexivity|].
  destruct (render_sorts_the_samples _ _ _ _ _ Hrun) as (_ & _ & _ & _).
  vm_compute in Hrun. injection Hrun as _ <-. reflexivity.
Defined.

(** *** Along a schedule *)

Lemma launches_app fx fx' : launches (fx ++ fx') = launches fx + launches fx'.
Proof.
  induction fx as [|e fx IH]; simpl; [done|]. destruct e; lia.
Qed.

(** One step keeps the books: the requests counted grow by the executors
    launched, and each counter keeps pace with its list. *)
Lemma step_ledger cfg l sys fx sys' k taken :
  counts_ok k taken sys ->
  k < Int64.max_int ->
  step cfg l sys = Some (fx, Some sys') ->
  requests (loop sys') = requests (loop sys) + launches fx
  /\ (successCount (loop sys) = Z.of_nat (length (successDurations (loop sys))) ->
      successCount (loop sys') = Z.of_nat (length (successDurations (loop sys'))))
  /\ (errorCount (loop sys) = Z.of_nat (length (errors (loop sys))) ->
      errorCount (loop sys') = Z.of_nat (length (errors (loop sys')))).
Proof.
  intros [Hs He Hk Ht Hi] Hmax Hstep. unfold outstanding in Hi.
  assert (Hin : forall x, 0 <= x <= k -> Int64.add x 1 = x + 1).
  { intros x Hx. apply Int64Facts.add_small.
    unfold Int64.in_range, Int64.min_int, Int64.max_int in *. lia. }
  destruct l as [| |i w t0|n|n]; simpl in Hstep.
  - destruct (successChannel sys) as [|d rest] eqn:Hchan; [done|].
    injection Hstep as <- <-. simpl.
    rewrite Hin, length_app by lia. simpl. lia.
  - destruct (errorsChannel sys) as [|msg rest] eqn:Hchan; [done|].
    injection Hstep as <- <-. simpl.
    rewrite Hin, length_app by lia. simpl. lia.
  - destruct (successChannel sys) eqn:Hsc; [|done].
    destruct (errorsChannel sys) eqn:Hec; [|done].
    destruct (case_default cfg i (loop sys)) as [fx' [st|]] eqn:Hdef; [|done].
    injection Hstep as <- <-. simpl.
    destruct (case_default_running _ _ _ _ _ Hdef)
      as (_ & Hreq & Hsucc & Herr & Herrs & _ & Hcase).
    rewrite Hreq, Hsucc, Herr, Herrs.
    assert (Hlen : length (merge_sort Z.le (successDurations (loop sys)))
                   = length (successDurations (loop sys)))
      by (apply Permutation_length, merge_sort_Permutation).
    destruct Hcase as [(_ & _ & -> & r & -> & _)|(_ & _ & -> & ->)];
      rewrite ?Hlen; destruct (allow i); simpl; rewrite ?Hin by lia; lia.
  - destruct (executors sys !! n) as [[[|[d|msg] rest] t]|] eqn:Hn; try done.
    + destruct (_ <? _)%nat; [|done]. injection Hstep as <- <-. simpl. lia.
    + destruct (_ <? _)%nat; [|done]. injection Hstep as <- <-. simpl. lia.
  - destruct (executors sys !! n) as [[[|] [|code|]]|] eqn:Hn; try done.
    injection Hstep as <- <-. simpl. lia.
Qed.

Lemma steps_ledger cfg schedule : forall sys fx sys' k taken,
  counts_ok k taken sys ->
  k + Z.of_nat (length schedule) <= Int64.max_int ->
  steps cfg schedule sys = Some (fx, Some sys') ->
  requests (loop sys') = requests (loop sys) + launches fx
  /\ (successCount (loop sys) = Z.of_nat (length (successDurations (loop sys))) ->
      successCount (loop sys') = Z.of_nat (length (successDurations (loop sys'))))
  /\ (errorCount (loop sys) = Z.of_nat (length (errors (loop sys))) ->
      errorCount (loop sys') = Z.of_nat (length (errors (loop sys')))).
Proof.
  induction schedule as [|l schedule IH]; intros sys fx sys' k taken Hok Hmax Hrun.
  - simpl in Hrun. injection Hrun as <- <-. simpl. split; [lia|done].
  - simpl in Hrun.
    destruct (step cfg l sys) as [[fx1 [sys1|]]|] eqn:Hstep;
      [| by destruct schedule | done].
    destruct (steps cfg schedule sys1) as [[fx2 final]|] eqn:Hrest; [|done].
    injection Hrun as <- ->. simpl length in Hmax.
    destruct (step_ledger _ _ _ _ _ _ _ Hok ltac:(lia) Hstep) as (Hr1 & Hs1 & He1).
    eapply step_counts in Hstep; [|done|lia].
    destruct (IH _ _ _ _ _ Hstep ltac:(lia) Hrest) as (Hr2 & Hs2 & He2).
    rewrite launches_app. split; [lia|]. split; auto.
Qed.

Lemma boot_counts now : counts_ok 0 0 (boot now).
Proof. constructor; simpl; done. Qed.

(** The request counter is the number of executors launched: along
    every schedule (of fewer than 2^63 steps) from the start, the loop has
    counted one request for each [go doRequest] and no other. *)
Theorem requests_are_launches cfg schedule now fx sys :
  Z.of_nat (length schedule) <= Int64.max_int ->
  steps cfg schedule (boot now) = Some (fx, Some sys) ->
  requests (loop sys) = launches fx.
Proof.
  intros Hmax Hrun.
  destruct (steps_ledger cfg schedule _ _ _ 0 0 (boot_counts now) ltac:(lia) Hrun)
    as (Hreq & _).
  simpl in Hreq. lia.
Qed.

(** The counters shown in a report agree with the lists behind it: along
    every schedule from the start, the success count is the number of
    samples held and the error count is the number of error labels held. *)
Theorem counters_match_lists cfg schedule now fx sys :
  Z.of_nat (length schedule) <= Int64.max_int ->
  steps cfg schedule (boot now) = Some (fx, Some sys) ->
  successCount (loop sys) = Z.of_nat (length (successDurations (loop sys)))
  /\ errorCount (loop sys) = Z.of_nat (length (errors (loop sys))).
Proof.
  intros Hmax Hrun.
  destruct (steps_ledger cfg schedule _ _ _ 0 0 (boot_counts now) ltac:(lia) Hrun)
    as (_ & Hs & He).
  split; [by apply Hs|by apply He].
Qed.

Lemma requests_are_launches_witness :
  exists fx sys,
    steps unbounded one_success (boot 0) = Some (fx, Some sys)
    /\ requests (loop sys) = launches fx.
Proof.
  destruct (steps unbounded one_success (boot 0)) as [[fx [sys|]]|] eqn:Hrun;
    try (by vm_compute in Hrun).
  exists fx, sys. split; [reflexivity|].
  apply (requests_are_launches unbounded one_success 0 fx sys); [|exact Hrun].
  by vm_compute.
Defined.

Lemma counters_match_lists_witness :
  exists fx sys,
    steps unbounded one_success (boot 0) = Some (fx, Some sys)
    /\ successCount (loop sys) = Z.of_nat (length (successDurations (loop sys)))
    /\ errorCount (loop sys) = Z.of_nat (length (errors (loop sys))).
Proof.
  destruct (steps unbounded one_success (boot 0)) as [[fx [sys|]]|] eqn:Hrun;
    try (by vm_compute in Hrun).
  exists fx, sys. split; [reflexivity|].
  apply (counters_match_lists unbounded one_success 0 fx sys); [|exact Hrun].
  by vm_compute.
Defined.

(** *** How the process ends *)

Lemma sampling_exit_code w headers auth t0 code :
  (run (Sampling.doRequest w headers auth) t0).1 = Exited code ->
  code = 1 /\ Exists (fun h => GoStrings.malformed h = true) headers.
Proof.
  destruct (new_request_fails w) eqn:Hnew.
  - by rewrite sampling_creation_fails.
  - destruct (headers_verdict headers) as [Hok|Hbad].
    + destruct (sampling_performed w headers auth t0 Hnew Hok) as (s & Hrun & _).
      rewrite Hrun. by destruct (do_response w).
    + destruct (sampling_malformed_run w headers auth t0 Hnew Hbad) as (s & Hrun & _).
      rewrite Hrun. by intros [= <-].
Qed.

Lemma step_exits_explained cfg l sys fx sys' :
  exits_explained cfg sys ->
  step cfg l sys = Some (fx, Some sys') ->
  exits_explained cfg sys'.
Proof.
  unfold exits_explained. intros Hall Hstep.
  destruct l as [| |i w t0|n|n]; simpl in Hstep.
  - destruct (successChannel sys); [done|]. by injection Hstep as <- <-.
  - destruct (errorsChannel sys); [done|]. by injection Hstep as <- <-.
  - destruct (successChannel sys); [|done]. destruct (errorsChannel sys); [|done].
    destruct (case_default cfg i (loop sys)) as [fx' [st|]]; [|done].
    injection Hstep as <- <-. simpl.
    apply Forall_app. split; [done|].
    destruct (allow i); [|done]. constructor; [|constructor].
    intros code. unfold launched.
    pose proof (sampling_exit_code w (headers cfg) (authentication cfg) t0 code) as H.
    destruct (run _ t0) as [t s]. simpl in *. exact H.
  - destruct (executors sys !! n) as [[[|[d|msg] rest] t]|] eqn:Hn; try done;
      (destruct (_ <? _)%nat; [|done]); injection Hstep as <- <-; simpl;
      apply Forall_insert; [done| |done|];
      exact (proj1 (Forall_lookup _ _) Hall n _ Hn).
  - destruct (executors sys !! n) as [[[|] [|code|]]|] eqn:Hn; try done.
    injection Hstep as <- <-. simpl. by apply Forall_delete.
Qed.

Lemma step_last_effect cfg l sys fx :
  exits_explained cfg sys ->
  step cfg l sys = Some (fx, None) ->
  exists pre,
    (fx = pre ++ [Exit 0] /\ 0 < duration cfg)
    \/ (fx = pre ++ [Exit 1]
        /\ Exists (fun h => GoStrings.malformed h = true) (headers cfg))
    \/ fx = pre ++ [Panic].
Proof.
  unfold exits_explained. intros Hall Hstep.
  destruct l as [| |i w t0|n|n]; simpl in Hstep.
  - by destruct (successChannel sys).
  - by destruct (errorsChannel sys).
  - destruct (successChannel sys); [|done]. destruct (errorsChannel sys); [|done].
    destruct (case_default cfg i (loop sys)) as [fx' [st|]] eqn:Hdef; [done|].
    injection Hstep as <-.
    destruct (case_default_ended _ _ _ _ Hdef) as (Hpos & _ & pre & r & ->).
    exists (pre ++ [Render r]). left. by rewrite <- app_assoc.
  - destruct (executors sys !! n) as [[[|[d|msg] rest] t]|] eqn:Hn; try done;
      by destruct (_ <? _)%nat.
  - destruct (executors sys !! n) as [[[|] [|code|]]|] eqn:Hn; try done.
    + injection Hstep as <-.
      destruct (proj1 (Forall_lookup _ _) Hall n _ Hn code eq_refl) as [-> Hbad].
      exists []. right. by left.
    + injection Hstep as <-. exists []. by right; right.
Qed.

Lemma steps_last_effect cfg schedule : forall sys fx,
  exits_explained cfg sys ->
  steps cfg schedule sys = Some (fx, None) ->
  exists pre,
    (fx = pre ++ [Exit 0] /\ 0 < duration cfg)
    \/ (fx = pre ++ [Exit 1]
        /\ Exists (fun h => GoStrings.malformed h = true) (headers cfg))
    \/ fx = pre ++ [Panic].
Proof.
  induction schedule as [|l schedule IH]; intros sys fx Hall Hrun; [done|].
  simpl in Hrun.
  destruct (step cfg l sys) as [[fx1 [sys1|]]|] eqn:Hstep; [| |done].
  - destruct (steps cfg schedule sys1) as [[fx2 final]|] eqn:Hrest; [|done].
    injection Hrun as <- ->.
    destruct (IH sys1 fx2 (step_exits_explained _ _ _ _ _ Hall Hstep) Hrest)
      as (pre & [[-> ?]|[[-> ?]| ->]]);
      exists (fx1 ++ pre); rewrite <- !app_assoc; auto.
  - destruct schedule; [|done]. injection Hrun as <-.
    by eapply step_last_effect.
Qed.

(** The process of the duration-sampling variant ends in one of three
    ways, and the exit status tells which: status 0 only when a run
    duration is set (the final render came before it), status 1 only when
    a configured header is malformed, and otherwise a panic. *)
Theorem exit_status_explained cfg schedule now fx :
  steps cfg schedule (boot now) = Some (fx, None) ->
  exists pre,
    (fx = pre ++ [Exit 0] /\ 0 < duration cfg)
    \/ (fx = pre ++ [Exit 1]
        /\ Exists (fun h => GoStrings.malformed h = true) (headers cfg))
    \/ fx = pre ++ [Panic].
Proof.
  apply steps_last_effect. unfold exits_explained. simpl. constructor.
Qed.

Lemma exit_status_explained_witness :
  exists fx pre,
    steps two_seconds [Default (instant false 2000000001)
                         (Build_world false None false 0 0 0 0) 0] (boot 0)
      = Some (fx, None)
    /\ ((fx = pre ++ [Exit 0] /\ 0 < duration two_seconds)
        \/ (fx = pre ++ [Exit 1]
            /\ Exists (fun h => GoStrings.malformed h = true) (headers two_seconds))
        \/ fx = pre ++ [Panic]).
Proof.
  destruct (steps two_seconds [Default (instant false 2000000001)
                                 (Build_world false None false 0 0 0 0) 0] (boot 0))
    as [[fx [sys|]]|] eqn:Hrun; try (vm_compute in Hrun; discriminate).
  destruct (exit_status_explained two_seconds _ 0 fx Hrun) as (pre & Hend).
  exists fx, pre. split; [reflexivity|exact Hend].
Defined.

(** *** The render timer *)

Lemma step_starved cfg l sys fx final t :
  1 * Duration.Second < t - lastPrint (loop sys) ->
  match l with Default i _ _ => t <= at_check (clk i) | _ => True end ->
  step cfg l sys = Some (fx, final) ->
  (forall r, Render r ∈ fx -> is_Some (rep_latency r))
  /\ (forall sys', final = Some sys' -> lastPrint (loop sys') = lastPrint (loop sys)).
Proof.
  intros Hlate Hl Hstep.
  destruct l as [| |i w t0|n|n]; simpl in Hstep.
  - destruct (successChannel sys); [done|]. injection Hstep as <- <-.
    split; [by intros r ?%elem_of_nil|]. by intros sys' [= <-].
  - destruct (errorsChannel sys); [done|]. injection Hstep as <- <-.
    split; [by intros r ?%elem_of_nil|]. by intros sys' [= <-].
  - destruct (successChannel sys); [|done]. destruct (errorsChannel sys); [|done].
    destruct (case_default cfg i (loop sys)) as [fx' [st|]] eqn:Hdef;
      injection Hstep as <- <-.
    + destruct (case_default_running _ _ _ _ _ Hdef)
        as (_ & _ & _ & _ & _ & _ & [(Hle & _)|(_ & Hlp & _ & ->)]); [lia|].
      split; [|by intros sys' [= <-]].
      intros r. destruct (allow i); rewrite ?elem_of_cons, ?elem_of_nil;
        intros Hin; repeat destruct Hin as [Hin|Hin]; done.
    + split; [|done]. revert Hdef. unfold case_default.
      set (m := if allow i then _ else _).
      destruct (periodic_cases cfg i m (loop sys)) as [(Hle & _)|(_ & ->)]; [lia|].
      destruct (_ && _); [|done].
      destruct (printMetrics_total m (successCount (loop sys)) (errorCount (loop sys))
                  (successDurations (loop sys)) (errors (loop sys)) (duration cfg)
                  (at_elapsed (clk i) - started (loop sys)) true (order_final i))
        as (r & -> & _ & Hlat & _).
      intros [= <-] r'.
      destruct (allow i); simpl; rewrite ?elem_of_cons, ?elem_of_nil;
        intros Hin; repeat destruct Hin as [Hin|Hin]; try done;
        injection Hin as ->; by apply Hlat.
  - destruct (executors sys !! n) as [[[|[d|msg] rest] t']|] eqn:Hn; try done;
      (destruct (_ <? _)%nat; [|done]); injection Hstep as <- <-;
      (split; [by intros r ?%elem_of_nil|]); by intros sys' [= <-].
  - destruct (executors sys !! n) as [[[|] [|code|]]|] eqn:Hn; try done;
      injection Hstep as <- <-;
      (split; [|by intros sys' [= <-]]); intros r;
      rewrite ?elem_of_cons, ?elem_of_nil;
      intros Hin; repeat destruct Hin as [Hin|Hin]; done.
Qed.

(** Once more than one second has passed since the last render, the loop
    never renders periodically again: along every later schedule the
    render timer stays where it was, and the only render that can still
    come is the final one, with its percentiles. *)
Theorem render_never_resumes cfg schedule : forall sys fx final t,
  1 * Duration.Second < t - lastPrint (loop sys) ->
  checks_from t schedule ->
  steps cfg schedule sys = Some (fx, final) ->
  (forall r, Render r ∈ fx -> is_Some (rep_latency r))
  /\ (forall sys', final = Some sys' -> lastPrint (loop sys') = lastPrint (loop sys)).
Proof.
  unfold checks_from.
  induction schedule as [|l schedule IH]; intros sys fx final t Hlate Hall Hrun.
  - simpl in Hrun. injection Hrun as <- <-.
    split; [by intros r ?%elem_of_nil|]. by intros sys' [= <-].
  - apply Forall_cons in Hall as [Hl Hall]. simpl in Hrun.
    destruct (step cfg l sys) as [[fx1 [sys1|]]|] eqn:Hstep; [| |done].
    + destruct (steps cfg schedule sys1) as [[fx2 final2]|] eqn:Hrest; [|done].
      injection Hrun as <- <-.
      destruct (step_starved _ _ _ _ _ t Hlate Hl Hstep) as [Hfx1 Hlp1].
      specialize (Hlp1 sys1 eq_refl).
      destruct (IH sys1 fx2 final2 t ltac:(rewrite Hlp1; lia) Hall Hrest)
        as [Hfx2 Hlp2].
      split.
      * intros r [?|?]%elem_of_app; auto.
      * intros sys' Hs. rewrite (Hlp2 sys' Hs). exact Hlp1.
    + destruct schedule; [|done]. injection Hrun as <- <-.
      by eapply step_starved.
Qed.

Lemma render_never_resumes_witness :
  exists fx sys',
    steps unbounded two_late_rounds (boot 0) = Some (fx, Some sys')
    /\ (forall r, Render r ∈ fx -> is_Some (rep_latency r))
    /\ lastPrint (loop sys') = 0.
Proof.
  destruct (steps unbounded two_late_rounds (boot 0))
    as [[fx [sys'|]]|] eqn:Hrun; try (vm_compute in Hrun; discriminate).
  assert (Hlate : 1 * Duration.Second < 2000000000 - lastPrint (loop (boot 0)))
    by reflexivity.
  assert (Hchecks : checks_from 2000000000 two_late_rounds)
    by (repeat constructor; simpl; lia).
  destruct (render_never_resumes unbounded two_late_rounds (boot 0) fx (Some sys')
              2000000000 Hlate Hchecks Hrun) as [Hfx Hlp].
  exists fx, sys'. split; [reflexivity|]. split; [exact Hfx|].
  exact (Hlp sys' eq_refl).
Defined.

Lemma sampling_counts_witness :
  exists fx sys,
    steps unbounded one_success (boot 0) = Some (fx, Some sys)
    /\ successCount (loop sys) + errorCount (loop sys) = ingested one_success
    /\ successCount (loop sys) + errorCount (loop sys) <= requests (loop sys).
Proof.
  destruct (steps unbounded one_success (boot 0)) as [[fx [sys|]]|] eqn:Hrun;
    try (vm_compute in Hrun; discriminate).
  exists fx, sys. split; [reflexivity|].
  apply (sampling_counts unbounded one_success 0 fx sys); [|exact Hrun].
  vm_compute. discriminate.
Defined.

Lemma transport_failure_without_response_panics_witness :
  exists s,
    run (Sampling.doRequest (Build_world false None true 3 5 100 7) ["A:B"] "") 0
      = (Panicked, s)
    /\ sent s = [].
Proof.
  apply (transport_failure_without_response_panics
           (Build_world false None true 3 5 100 7) ["A:B"] "" 0).
  - reflexivity.
  - repeat constructor.
  - reflexivity.
Defined.

End LoopFacts.

(** ** The dispatch loop of the counting variant, along a schedule *)

Module CountingLoopFacts.

Import Exec Observations Scenarios.
Import DispatchCounting.

Lemma step_state cfg l sys fx sys' k :
  0 <= successCount (loop sys) -> 0 <= errorCount (loop sys) ->
  successCount (loop sys) + errorCount (loop sys) <= k ->
  k < Int64.max_int ->
  step cfg l sys = Some (fx, Some sys') ->
  started (loop sys') = started (loop sys)
  /\ lastPrint (loop sys') = lastPrint (loop sys)
  /\ 0 <= successCount (loop sys') /\ 0 <= errorCount (loop sys')
  /\ successCount (loop sys') + errorCount (loop sys')
     = successCount (loop sys) + errorCount (loop sys) + received [l].
Proof.
  intros Hs He Hk Hmax Hstep.
  assert (Hin : forall x, 0 <= x <= k -> Int64.add x 1 = x + 1).
  { intros x Hx. apply Int64Facts.add_small.
    unfold Int64.in_range, Int64.min_int, Int64.max_int in *. lia. }
  destruct l as [n|allowed a c w t0|n]; simpl in Hstep.
  - destruct (executors sys !! n) as [[[|[v|e] rest] t]|]; try done;
      injection Hstep as <- <-; simpl; rewrite Hin by lia; lia.
  - injection Hstep as <- <-. simpl. lia.
  - destruct (executors sys !! n) as [[[|] [|code|]]|]; try done.
    injection Hstep as <- <-. simpl. lia.
Qed.

Lemma steps_state cfg schedule : forall sys fx sys' k,
  0 <= successCount (loop sys) -> 0 <= errorCount (loop sys) ->
  successCount (loop sys) + errorCount (loop sys) <= k ->
  k + Z.of_nat (length schedule) <= Int64.max_int ->
  steps cfg schedule sys = Some (fx, Some sys') ->
  started (loop sys') = started (loop sys)
  /\ lastPrint (loop sys') = lastPrint (loop sys)
  /\ successCount (loop sys') + errorCount (loop sys')
     = successCount (loop sys) + errorCount (loop sys) + received schedule.
Proof.
  induction schedule as [|l schedule IH]; intros sys fx sys' k Hs He Hk Hmax Hrun.
  - simpl in Hrun. injection Hrun as <- <-. simpl. lia.
  - simpl in Hrun.
    destruct (step cfg l sys) as [[fx1 [sys1|]]|] eqn:Hstep;
      [| by destruct schedule | done].
    destruct (steps cfg schedule sys1) as [[fx2 final]|] eqn:Hrest; [|done].
    injection Hrun as <- ->. simpl length in Hmax.
    destruct (step_state _ _ _ _ _ k Hs He Hk ltac:(lia) Hstep)
      as (Hst & Hlp & Hs1 & He1 & Hsum).
    assert (Hrec : 0 <= received [l] <= 1) by (destruct l; simpl; lia).
    destruct (IH sys1 fx2 sys' (k + 1) Hs1 He1 ltac:(lia) ltac:(lia) Hrest)
      as (Hst2 & Hlp2 & Hsum2).
    assert (Hcons : received (l :: schedule) = received [l] + received schedule)
      by (destruct l; simpl; lia).
    rewrite Hcons. split; [congruence|]. split; [congruence|lia].
Qed.

(** In the counting variant too, each report taken in moves exactly one
    counter: along every schedule (of fewer than 2^63 steps) from the
    start, the success and error counts add up to the reports taken in. *)
Theorem counting_counts_reports cfg schedule now fx sys :
  Z.of_nat (length schedule) <= Int64.max_int ->
  steps cfg schedule (boot now) = Some (fx, Some sys) ->
  successCount (loop sys) + errorCount (loop sys) = received schedule.
Proof.
  intros Hmax Hrun.
  destruct (steps_state cfg schedule (boot now) fx sys 0) as (_ & _ & Hsum);
    simpl; try lia; try done.
Qed.

(** The counting variant never assigns its render timer, so the timer
    stays at the start: however the run went, an iteration of the
    [default] branch prints its line exactly when more than one second has
    passed since the start, and so, the clock going forward, on every
    iteration from then on. *)
Theorem counting_prints_after_first_second cfg schedule now fx sys allowed a c :
  Z.of_nat (length schedule) <= Int64.max_int ->
  steps cfg schedule (boot now) = Some (fx, Some sys) ->
  (exists l, Print l ∈ (case_default allowed a c (loop sys)).1)
  <-> 1 * Duration.Second < c - now.
Proof.
  intros Hmax Hrun.
  destruct (steps_state cfg schedule (boot now) fx sys 0) as (_ & Hlp & _);
    simpl; try lia; try done.
  simpl in Hlp. unfold case_default. rewrite Hlp. simpl.
  destruct (Z.ltb_spec (1 * Duration.Second) (c - now)).
  - split; [done|]. intros _.
    destruct allowed; simpl; eexists; rewrite ?elem_of_cons; eauto.
  - split; [|lia]. intros [l Hl]. revert Hl.
    destruct allowed; simpl; rewrite ?elem_of_cons, ?elem_of_nil;
      intros Hin; repeat destruct Hin as [Hin|Hin]; done.
Qed.

Lemma counting_counts_reports_witness :
  exists fx sys,
    steps plain_counting one_failure_counted (boot 0) = Some (fx, Some sys)
    /\ successCount (loop sys) + errorCount (loop sys) = 2.
Proof.
  destruct (steps plain_counting one_failure_counted (boot 0))
    as [[fx [sys|]]|] eqn:Hrun; try (vm_compute in Hrun; discriminate).
  exists fx, sys. split; [reflexivity|].
  apply (counting_counts_reports plain_counting one_failure_counted 0 fx sys);
    [|exact Hrun].
  vm_compute. discriminate.
Defined.

Lemma counting_prints_after_first_second_witness :
  exists fx sys,
    steps plain_counting one_failure_counted (boot 0) = Some (fx, Some sys)
    /\ ((exists l, Print l ∈ (case_default false 5000000000 5000000000 (loop sys)).1)
        <-> 1 * Duration.Second < 5000000000 - 0).
Proof.
  destruct (steps plain_counting one_failure_counted (boot 0))
    as [[fx [sys|]]|] eqn:Hrun; try (vm_compute in Hrun; discriminate).
  exists fx, sys. split; [reflexivity|].
  apply (counting_prints_after_first_second plain_counting one_failure_counted
           0 fx sys false 5000000000 5000000000); [|exact Hrun].
  vm_compute. discriminate.
Defined.

End CountingLoopFacts.
